(** * Flight-statistics dashboard: re-binning and correlation slicing

    A shallow embedding of the computations of [streamlit_app.py] that
    carry a contract: the dynamic re-aggregation of the histogram summary
    and the bars drawn from it (lines 154-169), the selection of what the
    correlation heat map shows (lines 105-144), and the two filters with the
    bar chart of mean ground times (lines 70-99).

    Modelling conventions.
    - A pandas [DataFrame] read by [pd.read_csv] carries the default
      [RangeIndex]: row [i] has index label [i].
    - Python exceptions are results: a computation yields [Returned v] or
      [Raised e].
    - [bin_edges] holds finite floats; they are represented by the rational
      numbers they denote, on which comparison and [min] are exact.  The
      rounded operations of the script (the float addition of the trailing
      edge, the float differences of [np.diff], the float mean of a group)
      are variables of the sections that use them.
    - [frequency] holds integer counts in an int64 column: the sums that
      [groupby(...).agg('sum')] takes wrap around at 2^63.  The totals the
      properties speak of are exact sums of the cell values.
    - The table of colour scale names that [px.imshow] accepts is not part
      of the script; it is a variable of the heat map section.
    - Text cells are strings without missing values; [groupby] orders its
      keys as Python orders strings, which on UTF-8 text is the byte-wise
      order of [String.compare]. *)

From Stdlib Require Import String Bool Arith ZArith QArith Qminmax Lia List Sorted.
From Stdlib Require OrderedTypeEx.
Import ListNotations.

Set Implicit Arguments.
Close Scope Q_scope.
Open Scope nat_scope.

(** ** Exceptions as results *)

Inductive exn : Type :=
| ZeroDivisionError
| IndexError
| KeyError (key : string)
| ValueError.

Inductive outcome (A : Type) : Type :=
| Returned (a : A)
| Raised (e : exn).

Arguments Returned {A} a.
Arguments Raised {A} e.

Definition bind {A B : Type} (o : outcome A) (k : A -> outcome B) : outcome B :=
  match o with
  | Returned a => k a
  | Raised e => Raised e
  end.

Notation "x <- c ;; k" := (bind c (fun x => k))
  (at level 61, c at next level, right associativity).

(** The error kinds of a typed result, and a call seen as one: a raised
    exception hands the caller no value at all. *)
Inductive ErrorKind : Type := InvalidArgument | NotFound.

Definition as_typed_result {A : Type} (o : outcome A) : option (ErrorKind + A) :=
  match o with
  | Returned a => Some (inr a)
  | Raised _ => None
  end.

(** ** The histogram section *)

Module Histogram.

(** One row of [histogram_summary]: the columns [bin_edges] and [frequency]. *)
Record HistogramBin : Type := mkBin { bin_edges : Q; frequency : Z }.

(** [histogram_summary], rows in file order, indexed 0, 1, 2, ... *)
Definition HistogramSummary : Type := list HistogramBin.

(** [st.slider(..., min_value=5, max_value=30, value=10)] hands back a value
    of its range. *)
Definition slider_range (min_value max_value k : nat) : Prop :=
  min_value <= k <= max_value.

Definition valid_num_bins (num_bins : nat) : Prop := slider_range 5 30 num_bins.

(** Python's [a // b] on non-negative integers. *)
Definition floordiv (a b : nat) : outcome nat :=
  if b =? 0 then Raised ZeroDivisionError else Returned (a / b).

(** [bin_step = max(1, len(histogram_summary) // num_bins)] *)
Definition bin_step (histogram_summary : HistogramSummary) (num_bins : nat)
  : outcome nat :=
  q <- floordiv (length histogram_summary) num_bins ;;
  Returned (Nat.max 1 q).

(** A group of [groupby]: its key and its rows, in frame order.  A group
    exists only once a row has been put in it. *)
Record Group : Type :=
  mkGroup { key : nat; first_row : HistogramBin; more_rows : list HistogramBin }.

Definition group_rows (g : Group) : list HistogramBin :=
  first_row g :: more_rows g.

(** Filing one row under its key; groups are kept by ascending key
    ([groupby] sorts the group keys). *)
Fixpoint insert_row (k : nat) (r : HistogramBin) (gs : list Group) : list Group :=
  match gs with
  | [] => [mkGroup k r []]
  | g :: gs' =>
      if k <? key g then mkGroup k r [] :: gs
      else if k =? key g then mkGroup (key g) (first_row g) (more_rows g ++ [r]) :: gs'
      else g :: insert_row k r gs'
  end.

(** [frame.groupby(keys)]: the rows are filed one by one, in frame order. *)
Definition groupby (keys : list nat) (rows : list HistogramBin) : list Group :=
  fold_left (fun gs kr => insert_row (fst kr) (snd kr) gs) (combine keys rows) [].

(** The [frequency] column is an int64 column: an addition that leaves
    the range -2^63 .. 2^63 - 1 wraps around. *)
Definition int64_wrap (z : Z) : Z := ((z + 2 ^ 63) mod 2 ^ 64 - 2 ^ 63)%Z.

Definition int64_add (a b : Z) : Z := int64_wrap (a + b).

(** ['bin_edges': 'min'] and ['frequency': 'sum'] on one group. *)
Definition agg_min (g : Group) : Q :=
  fold_left Qmin (map bin_edges (more_rows g)) (bin_edges (first_row g)).

Definition agg_sum (g : Group) : Z :=
  fold_left int64_add (map frequency (more_rows g)) (frequency (first_row g)).

(** The aggregated frame: one row per group, indexed by the group key. *)
Definition agg (gs : list Group) : list (nat * HistogramBin) :=
  map (fun g => (key g, mkBin (agg_min g) (agg_sum g))) gs.

(** [histogram_summary.index // bin_step] *)
Definition group_keys (n step : nat) : list nat :=
  map (fun i => i / step) (seq 0 n).

(** Lines 158-162. *)
Definition aggregated_bins (histogram_summary : HistogramSummary) (num_bins : nat)
  : outcome (list (nat * HistogramBin)) :=
  step <- bin_step histogram_summary num_bins ;;
  Returned (agg (groupby (group_keys (length histogram_summary) step)
                         histogram_summary)).

(** The rows of an aggregated frame, and its two columns. *)
Definition rows (frame : list (nat * HistogramBin)) : list HistogramBin :=
  map snd frame.

Definition edges (bins : list HistogramBin) : list Q := map bin_edges bins.

Definition frequencies (bins : list HistogramBin) : list Z := map frequency bins.

Definition total (bins : list HistogramBin) : Z :=
  fold_right Z.add 0%Z (frequencies bins).

(** [series.iloc[-1]] *)
Definition iloc_last (series : list Q) : outcome Q :=
  match rev series with
  | [] => Raised IndexError
  | x :: _ => Returned x
  end.

(** The float literal [0.1], exactly. *)
Definition float_0_1 : Q := 3602879701896397 # 36028797018963968.

Section TrailingEdge.

(** Float addition (round to nearest of the exact sum). *)
Variable float_add : Q -> Q -> Q.

(** Line 165:
    [pd.concat([aggregated_bins['bin_edges'],
                pd.Series([aggregated_bins['bin_edges'].iloc[-1] + 0.1])])] *)
Definition bin_edges_extended (aggregated : list (nat * HistogramBin))
  : outcome (list Q) :=
  let left_edges := edges (rows aggregated) in
  last_edge <- iloc_last left_edges ;;
  Returned (left_edges ++ [float_add last_edge float_0_1]).

(** Lines 158-165: what the plot is drawn from. *)
Definition histogram_section (histogram_summary : HistogramSummary)
  (num_bins : nat) : outcome (list (nat * HistogramBin) * list Q) :=
  aggregated <- aggregated_bins histogram_summary num_bins ;;
  extended <- bin_edges_extended aggregated ;;
  Returned (aggregated, extended).

End TrailingEdge.

(** The partition the aggregation is meant to compute: consecutive runs of
    [step] rows, the last one possibly shorter. *)
Definition ceil_div (a b : nat) : nat := (a + b - 1) / b.

Definition run (step : nat) (bins : list HistogramBin) (g : nat)
  : list HistogramBin :=
  firstn step (skipn (g * step) bins).

Definition strictly_ascending (es : list Q) : Prop := Sorted Qlt es.

Definition nonneg (b : HistogramBin) : Prop := (0 <= frequency b)%Z.

(** The total count fits the int64 range. *)
Definition fits_int64 (bins : list HistogramBin) : Prop :=
  (total bins < 2 ^ 63)%Z.

End Histogram.

(** ** The correlation heat map *)

Module Correlation.

Section Frames.

(** The type of the cells (floats); they are only moved around. *)
Variable cell : Type.

(** The names [px.imshow] accepts as [color_continuous_scale]: plotly's
    table of named colour scales. *)
Variable known_colorscale : string -> bool.

(** A data frame with row labels in [R] and column labels in [C]; [values]
    is row-major, as [frame.values] is. *)
Record DataFrame (R C : Type) : Type :=
  mkFrame { index : list R; columns : list C; values : list (list cell) }.

(** [frame.shape] *)
Definition shape {R C : Type} (frame : DataFrame R C) : nat * nat :=
  (length (index frame), length (columns frame)).

(** What [pd.read_csv] gives for the correlation file: named columns, rows
    indexed 0, 1, 2, ..., every row as wide as the header. *)
Definition CorrelationFrame : Type := DataFrame nat string.

Definition well_formed (frame : CorrelationFrame) : Prop :=
  index frame = seq 0 (length (values frame)) /\
  NoDup (columns frame) /\
  Forall (fun row => length row = length (columns frame)) (values frame).

Definition square (frame : CorrelationFrame) : Prop :=
  length (values frame) = length (columns frame).

(** Keeping the cells of a row that sit under a selected column. *)
Definition select_mask {A : Type} (mask : list bool) (row : list A) : list A :=
  map snd (filter fst (combine mask row)).

(** [frame[[label]]]: the columns carrying [label], or [KeyError]. *)
Definition getitem_columns {R : Type} (frame : DataFrame R string)
  (label : string) : outcome (DataFrame R string) :=
  let mask := map (String.eqb label) (columns frame) in
  if existsb (fun b => b) mask
  then Returned (mkFrame (index frame)
                         (select_mask mask (columns frame))
                         (map (select_mask mask) (values frame)))
  else Raised (KeyError label).

(** Rows to columns, for rows of width [ncols]. *)
Fixpoint transpose_values (ncols : nat) (rows : list (list cell))
  : list (list cell) :=
  match rows with
  | [] => repeat [] ncols
  | r :: rs =>
      map (fun p => fst p :: snd p) (combine r (transpose_values ncols rs))
  end.

(** [frame.transpose()] *)
Definition transpose {R C : Type} (frame : DataFrame R C) : DataFrame C R :=
  mkFrame (columns frame) (index frame)
          (transpose_values (length (columns frame)) (values frame)).

(** The heat map handed to [st.plotly_chart]. *)
Record Figure : Type :=
  mkFigure {
      img : list (list cell);
      x : list string;
      y : list string;
      label_x : string;
      label_y : string;
      label_color : string;
      title : string;
      color_continuous_scale : string;
      zmin : Z;
      zmax : Z;
      width : nat;
      height : nat
    }.

(** [px.imshow(frame, labels=dict(x=.., y=.., color=..), x=.., y=..,
    title=.., color_continuous_scale=.., zmin=.., zmax=.., width=..,
    height=..)]: the axis vectors must fit the image, first [y], then [x],
    and the colour scale must be a known one. *)
Definition imshow {R C : Type} (frame : DataFrame R C)
  (label_x label_y label_color : string) (x y : list string)
  (title color_continuous_scale : string) (zmin zmax : Z)
  (width height : nat) : outcome Figure :=
  if negb (fst (shape frame) =? length y) then Raised ValueError
  else if negb (snd (shape frame) =? length x) then Raised ValueError
  else if negb (known_colorscale color_continuous_scale) then Raised ValueError
  else Returned (mkFigure (values frame) x y label_x label_y label_color
                          title color_continuous_scale zmin zmax width height).

Definition full_option : string := "Full Correlation Matrix".

(** [all_options = ["Full Correlation Matrix"] + list(df.columns)] *)
Definition all_options (full_correlation_matrix_df : CorrelationFrame)
  : list string :=
  full_option :: columns full_correlation_matrix_df.

(** [st.selectbox(label, options)] hands back one of the options. *)
Definition selectbox (options : list string) (selected : string) : Prop :=
  In selected options.

(** Lines 110-144: the figure drawn for a selection. *)
Definition correlation_section (full_correlation_matrix_df : CorrelationFrame)
  (colormap selected_feature : string) : outcome Figure :=
  if String.eqb selected_feature full_option then
    imshow full_correlation_matrix_df
           "Features" "Features" "Correlation"
           (columns full_correlation_matrix_df)
           (columns full_correlation_matrix_df)
           "Full Feature Correlation Matrix"
           colormap (-1) 1 800 800
  else
    selected <- getitem_columns full_correlation_matrix_df selected_feature ;;
    let selected_correlation := transpose selected in
    imshow selected_correlation
           "Features" selected_feature "Correlation"
           (columns full_correlation_matrix_df)
           [selected_feature]
           ("Correlation Heatmap for " ++ selected_feature)
           colormap (-1) 1 800 400.

(** Position of a label among the column labels. *)
Fixpoint index_of (label : string) (labels : list string) : option nat :=
  match labels with
  | [] => None
  | l :: ls =>
      if String.eqb label l then Some 0
      else option_map S (index_of label ls)
  end.

(** The row of the matrix that belongs to a feature: the one at the
    feature's position among the labels. *)
Definition row_of (frame : CorrelationFrame) (label : string)
  : option (list cell) :=
  match index_of label (columns frame) with
  | Some p => nth_error (values frame) p
  | None => None
  end.

(** The column of the matrix under a feature, top to bottom. *)
Definition is_column_of (frame : CorrelationFrame) (label : string)
  (strip : list cell) : Prop :=
  exists p, index_of label (columns frame) = Some p /\
            Forall2 (fun row c => nth_error row p = Some c) (values frame) strip.

(** Cell (i, j) equals cell (j, i). *)
Definition symmetric (frame : CorrelationFrame) : Prop :=
  forall i j ri rj,
    nth_error (values frame) i = Some ri ->
    nth_error (values frame) j = Some rj ->
    nth_error ri j = nth_error rj i.

(** The slice as a reading by rows would have it: one row labelled by the
    feature, over all the columns, holding the matrix row of that feature. *)
Definition shows_row_of (frame : CorrelationFrame) (colormap label : string)
  : Prop :=
  exists fig r,
    correlation_section frame colormap label = Returned fig /\
    y fig = [label] /\ x fig = columns frame /\
    row_of frame label = Some r /\ img fig = [r].

End Frames.

(** A failure handed back as a value of kind [NotFound]. *)
Definition fails_with_not_found {A : Type} (o : outcome A) : Prop :=
  as_typed_result o = Some (inl NotFound).

End Correlation.

Import Histogram.

(** The worked example of the re-binning. *)
Definition example_bins : HistogramSummary :=
  [mkBin 0 5; mkBin (1#2) 10; mkBin 1 7; mkBin (3#2) 3].

(** Ten bins whose first two counts add up to 2^63. *)
Definition overflow_bins : HistogramSummary :=
  [mkBin 0 9223372036854775807; mkBin 1 1; mkBin 2 3; mkBin 3 4; mkBin 4 0;
   mkBin 5 0; mkBin 6 2; mkBin 7 2; mkBin 8 1; mkBin 9 1].

Import Correlation.

(** Line 103: the colormaps the select box offers. *)
Definition colormap_options : list string :=
  ["RdBu_r"; "gray"; "Viridis"; "Cividis"; "Plasma"; "Inferno"; "Magma"]%string.

(** A table of colour scales holding just these names. *)
Definition script_colorscales (name : string) : bool :=
  existsb (String.eqb name) colormap_options.

(** Two small correlation files: one symmetric, one not. *)
Definition symmetric_matrix : CorrelationFrame Q :=
  mkFrame [0; 1] ["A"; "B"]%string [[1; 3#10]; [3#10; 1]]%Q.

Definition asymmetric_matrix : CorrelationFrame Q :=
  mkFrame [0; 1] ["A"; "B"]%string [[1; 3#10]; [7#10; 1]]%Q.

(** A frame that is not square: one row under two columns. *)
Definition wide_matrix : CorrelationFrame Q :=
  mkFrame [0] ["A"; "B"]%string [[1; 3#10]]%Q.

(** ** Drawing the histogram *)

Module HistogramPlot.

(** What one run of rows is summarised to: the least left edge and the sum
    of the frequencies; nothing for an empty run. *)
Definition summarize (bins : list HistogramBin) : option HistogramBin :=
  match bins with
  | [] => None
  | b :: more => Some (mkBin (fold_left Qmin (edges more) (bin_edges b))
                             (total bins))
  end.

Section Bars.

(** Float addition and subtraction. *)
Variable float_add : Q -> Q -> Q.
Variable float_sub : Q -> Q -> Q.

(** [np.diff]: the differences of neighbours. *)
Fixpoint diff (series : list Q) : list Q :=
  match series with
  | [] => []
  | a :: rest =>
      match rest with
      | [] => []
      | b :: _ => float_sub b a :: diff rest
      end
  end.

(** The three sequences handed to [plt.bar]. *)
Record BarCall : Type :=
  mkBarCall { bar_x : list Q; bar_height : list Z; bar_width : list Q }.

(** Lines 158-169:
    [plt.bar(aggregated_bins['bin_edges'], aggregated_bins['frequency'],
             width=np.diff(bin_edges_extended), ...)] *)
Definition histogram_plot (histogram_summary : HistogramSummary)
  (num_bins : nat) : outcome BarCall :=
  section <- histogram_section float_add histogram_summary num_bins ;;
  Returned (mkBarCall (edges (rows (fst section)))
                      (frequencies (rows (fst section)))
                      (diff (snd section))).

End Bars.

End HistogramPlot.

(** ** The filters and the bar chart *)

Module Flights.

(** One row of the summarized flight table. *)
Record FlightRow : Type :=
  mkFlight {
      YEAR : Z;
      AIRCRAFT_CONFIG_DESC : string;
      total_flights : Z;
      average_ground_time : Q
    }.

Definition FlightFrame : Type := list FlightRow.

Section Series.

Variable A : Type.
Variable eqb : A -> A -> bool.

(** [series.isin(values)] on one cell. *)
Definition isin (values : list A) (cell : A) : bool :=
  existsb (eqb cell) values.

(** [series.unique()]: a scan that keeps a value the first time it is met. *)
Fixpoint unique_from (seen : list A) (series : list A) : list A :=
  match series with
  | [] => []
  | v :: rest =>
      if isin seen v then unique_from seen rest
      else v :: unique_from (v :: seen) rest
  end.

Definition unique (series : list A) : list A := unique_from [] series.

End Series.

(** The options (and defaults) of the two multiselects, lines 71-76. *)
Definition year_options (df : FlightFrame) : list Z :=
  unique Z.eqb (map YEAR df).

Definition aircraft_options (df : FlightFrame) : list string :=
  unique String.eqb (map AIRCRAFT_CONFIG_DESC df).

(** Line 80:
    [df[(df['YEAR'].isin(year_filter)) &
        (df['AIRCRAFT_CONFIG_DESC'].isin(aircraft_filter))]] *)
Definition filtered_df (df : FlightFrame) (year_filter : list Z)
  (aircraft_filter : list string) : FlightFrame :=
  filter (fun row => isin Z.eqb year_filter (YEAR row)
                     && isin String.eqb aircraft_filter (AIRCRAFT_CONFIG_DESC row))
         df.

(** A group of [groupby('AIRCRAFT_CONFIG_DESC')]: its configuration and the
    ground times of its rows, in frame order. *)
Record ConfigGroup : Type :=
  mkConfigGroup { config : string; first_time : Q; more_times : list Q }.

Definition group_times (g : ConfigGroup) : list Q :=
  first_time g :: more_times g.

(** Filing one row; the groups are kept by ascending configuration name. *)
Fixpoint insert_time (c : string) (t : Q) (gs : list ConfigGroup)
  : list ConfigGroup :=
  match gs with
  | [] => [mkConfigGroup c t []]
  | g :: gs' =>
      if String.ltb c (config g) then mkConfigGroup c t [] :: gs
      else if String.eqb c (config g)
           then mkConfigGroup (config g) (first_time g) (more_times g ++ [t]) :: gs'
           else g :: insert_time c t gs'
  end.

Definition groupby_config (frame : FlightFrame) : list ConfigGroup :=
  fold_left (fun gs row =>
               insert_time (AIRCRAFT_CONFIG_DESC row) (average_ground_time row) gs)
            frame [].

Section BarChart.

(** The float mean of a non-empty series. *)
Variable float_mean : list Q -> Q.

(** Line 98:
    [filtered_df.groupby('AIRCRAFT_CONFIG_DESC')
       .agg(average_ground_time=('average_ground_time', 'mean')).reset_index()] *)
Definition bar_chart_data (frame : FlightFrame) : list (string * Q) :=
  map (fun g => (config g, float_mean (group_times g))) (groupby_config frame).

(** Lines 80-99: the bars drawn for a choice of the two filters. *)
Definition bar_chart (df : FlightFrame) (year_filter : list Z)
  (aircraft_filter : list string) : list (string * Q) :=
  bar_chart_data (filtered_df df year_filter aircraft_filter).

End BarChart.

(** The ground times of the rows of one configuration, in frame order. *)
Definition times_of (c : string) (frame : FlightFrame) : list Q :=
  map average_ground_time
      (filter (fun row => String.eqb c (AIRCRAFT_CONFIG_DESC row)) frame).

Definition string_lt (a b : string) : Prop := String.ltb a b = true.

End Flights.

Import HistogramPlot.
Import Flights.

(** A small flight table. *)
Definition example_flights : FlightFrame :=
  [mkFlight 2020 "Passenger Configuration" 100 (21#2);
   mkFlight 2020 "Freight Configuration" 40 (35#2);
   mkFlight 2021 "Passenger Configuration" 120 11;
   mkFlight 2021 "Freight Configuration" 50 18].

(** * Properties of the re-binning *)

Unset Implicit Arguments.

(** ** How [groupby] files the rows *)

Lemma insert_row_new_last (k : nat) (r : HistogramBin) (gs : list Group) :
  Forall (fun g => key g < k) gs ->
  insert_row k r gs = gs ++ [mkGroup k r []].
Proof.
  induction 1 as [|g gs Hg _ IH]; simpl; [reflexivity|].
  destruct (Nat.ltb_spec k (key g)); [lia|].
  destruct (Nat.eqb_spec k (key g)); [lia|].
  now rewrite IH.
Qed.

Lemma insert_row_into_last (k : nat) (r : HistogramBin) (gs : list Group)
  (g : Group) :
  Forall (fun g' => key g' < k) gs ->
  key g = k ->
  insert_row k r (gs ++ [g])
  = gs ++ [mkGroup k (first_row g) (more_rows g ++ [r])].
Proof.
  intros Hgs Hk. induction Hgs as [|g' gs Hg' _ IH]; simpl.
  - rewrite Hk, Nat.ltb_irrefl, Nat.eqb_refl. reflexivity.
  - destruct (Nat.ltb_spec k (key g')); [lia|].
    destruct (Nat.eqb_spec k (key g')); [lia|].
    now rewrite IH.
Qed.

Lemma combine_snoc (A B : Type) (l1 : list A) (l2 : list B) (a : A) (b : B) :
  length l1 = length l2 ->
  combine (l1 ++ [a]) (l2 ++ [b]) = combine l1 l2 ++ [(a, b)].
Proof.
  revert l2. induction l1 as [|a1 l1 IH]; intros [|b2 l2] Hlen;
    simpl in *; try discriminate; [reflexivity|].
  f_equal. apply IH. congruence.
Qed.

Lemma groupby_snoc (ks : list nat) (rs : list HistogramBin) (k : nat)
  (r : HistogramBin) :
  length ks = length rs ->
  groupby (ks ++ [k]) (rs ++ [r]) = insert_row k r (groupby ks rs).
Proof.
  intros Hlen. unfold groupby.
  rewrite combine_snoc by exact Hlen.
  rewrite fold_left_app. reflexivity.
Qed.

Lemma group_keys_length (n step : nat) : length (group_keys n step) = n.
Proof. unfold group_keys. now rewrite length_map, length_seq. Qed.

Lemma group_keys_succ (n step : nat) :
  group_keys (S n) step = group_keys n step ++ [n / step].
Proof. unfold group_keys. rewrite seq_S, map_app. reflexivity. Qed.

Lemma keys_below (gs : list Group) (m : nat) :
  map key gs = seq 0 m -> Forall (fun g => key g < m) gs.
Proof.
  intros H. apply Forall_forall. intros g Hg.
  apply (in_map key) in Hg. rewrite H in Hg. apply in_seq in Hg. lia.
Qed.

Lemma ceil_div_exact (n step : nat) :
  0 < step -> n mod step = 0 -> ceil_div n step = n / step.
Proof.
  intros Hs Hm. unfold ceil_div. symmetry.
  apply Nat.div_unique with (r := step - 1); [lia|].
  pose proof (Nat.div_mod_eq n step). lia.
Qed.

Lemma ceil_div_inexact (n step : nat) :
  0 < step -> n mod step <> 0 -> ceil_div n step = S (n / step).
Proof.
  intros Hs Hm. unfold ceil_div. symmetry.
  apply Nat.div_unique with (r := n mod step - 1).
  - pose proof (Nat.mod_upper_bound n step). lia.
  - pose proof (Nat.div_mod_eq n step). rewrite Nat.mul_succ_r. lia.
Qed.

Lemma ceil_div_succ (n step : nat) :
  0 < step -> ceil_div (S n) step = S (n / step).
Proof.
  intros Hs. unfold ceil_div.
  replace (S n + step - 1) with (n + 1 * step) by lia.
  rewrite Nat.div_add by lia. lia.
Qed.

Lemma run_app_full (step : nat) (bins : list HistogramBin) (r : HistogramBin)
  (g : nat) :
  S g * step <= length bins ->
  run step (bins ++ [r]) g = run step bins g.
Proof.
  intros H. unfold run. simpl in H.
  rewrite skipn_app, firstn_app, length_skipn.
  replace (g * step - length bins) with 0 by lia.
  replace (step - (length bins - g * step)) with 0 by lia.
  simpl. now rewrite app_nil_r.
Qed.

Lemma run_app_last (step : nat) (bins : list HistogramBin) (r : HistogramBin)
  (g : nat) :
  g * step <= length bins < S g * step ->
  run step (bins ++ [r]) g = run step bins g ++ [r].
Proof.
  intros H. unfold run. simpl in H.
  rewrite skipn_app, firstn_app, length_skipn.
  replace (g * step - length bins) with 0 by lia.
  destruct (step - (length bins - g * step)) as [|d] eqn:E; [lia|].
  simpl. now rewrite firstn_nil.
Qed.

(** [groupby] on the keys [i // step] of a range index files the rows into
    consecutive runs of [step] rows, keyed 0, 1, 2, ... *)
Lemma groupby_runs (step : nat) (bins : list HistogramBin) :
  0 < step ->
  map key (groupby (group_keys (length bins) step) bins)
  = seq 0 (ceil_div (length bins) step) /\
  map group_rows (groupby (group_keys (length bins) step) bins)
  = map (run step bins) (seq 0 (ceil_div (length bins) step)).
Proof.
  intros Hs. induction bins as [|r bins IH] using rev_ind.
  - simpl. unfold ceil_div. simpl.
    rewrite Nat.div_small by lia. split; reflexivity.
  - rewrite length_app. simpl length.
    replace (length bins + 1) with (S (length bins)) by lia.
    rewrite group_keys_succ, groupby_snoc by apply group_keys_length.
    set (n := length bins) in *.
    set (gs := groupby (group_keys n step) bins) in *.
    destruct IH as [Hk Hr].
    rewrite ceil_div_succ by exact Hs.
    pose proof (Nat.div_mod_eq n step) as Hdm.
    pose proof (Nat.mod_upper_bound n step ltac:(lia)) as Hub.
    assert (Hold : forall g, g < n / step ->
                             run step (bins ++ [r]) g = run step bins g).
    { intros g Hg. apply run_app_full. fold n.
      assert (S g * step <= step * (n / step)) by nia. lia. }
    assert (Hnew : run step (bins ++ [r]) (n / step)
                   = run step bins (n / step) ++ [r]).
    { apply run_app_last. fold n. simpl. nia. }
    assert (Hruns : map (run step (bins ++ [r])) (seq 0 (S (n / step)))
                    = map (run step bins) (seq 0 (n / step))
                      ++ [run step bins (n / step) ++ [r]]).
    { rewrite seq_S, map_app. simpl. rewrite Hnew. f_equal.
      apply map_ext_in. intros g Hg. apply in_seq in Hg. apply Hold. lia. }
    rewrite Hruns. rewrite seq_S. simpl seq.
    destruct (Nat.eq_dec (n mod step) 0) as [Hm|Hm].
    + rewrite ceil_div_exact in Hk, Hr by assumption.
      rewrite insert_row_new_last by (apply keys_below; exact Hk).
      rewrite !map_app, Hk, Hr. simpl. split; [reflexivity|].
      f_equal. unfold run. rewrite skipn_all2 by (fold n; lia).
      now rewrite firstn_nil.
    + rewrite ceil_div_inexact in Hk, Hr by assumption.
      rewrite seq_S in Hk, Hr. rewrite map_app in Hr. simpl in Hk, Hr.
      apply map_eq_app in Hk. destruct Hk as (gs0 & gl & Hgs & Hk0 & Hkl).
      destruct gl as [|g [|]]; simpl in Hkl; try discriminate.
      injection Hkl as Hkg.
      rewrite Hgs in Hr |- *. rewrite map_app in Hr. simpl in Hr.
      apply app_inj_tail in Hr. destruct Hr as [Hr0 Hrl].
      rewrite insert_row_into_last by (try apply keys_below; assumption).
      rewrite !map_app, Hk0, Hr0. simpl. split; [reflexivity|].
      f_equal. unfold group_rows in *. simpl. rewrite <- Hrl. reflexivity.
Qed.

(** ** Sums and single rows *)

Lemma valid_num_bins_positive (k : nat) : valid_num_bins k -> 0 < k.
Proof. unfold valid_num_bins, slider_range. lia. Qed.

Lemma bin_step_returns (bins : HistogramSummary) (k : nat) :
  0 < k ->
  bin_step bins k = Returned (Nat.max 1 (length bins / k)).
Proof.
  intros Hk. unfold bin_step, floordiv.
  destruct (Nat.eqb_spec k 0); [lia|reflexivity].
Qed.

Lemma aggregated_bins_returns (bins : HistogramSummary) (k : nat) :
  0 < k ->
  aggregated_bins bins k
  = Returned (agg (groupby (group_keys (length bins)
                                       (Nat.max 1 (length bins / k))) bins)).
Proof.
  intros Hk. unfold aggregated_bins. now rewrite bin_step_returns.
Qed.

(** A target of zero stops at the floor division. *)
Lemma zero_target_raises (bins : HistogramSummary) :
  aggregated_bins bins 0 = Raised ZeroDivisionError.
Proof. reflexivity. Qed.

Lemma rows_agg (gs : list Group) :
  rows (agg gs) = map (fun g => mkBin (agg_min g) (agg_sum g)) gs.
Proof. unfold rows, agg. rewrite map_map. reflexivity. Qed.

Lemma index_agg (gs : list Group) : map fst (agg gs) = map key gs.
Proof. unfold agg. rewrite map_map. reflexivity. Qed.

Lemma total_nil : total [] = 0%Z.
Proof. reflexivity. Qed.

Lemma total_cons (b : HistogramBin) (l : list HistogramBin) :
  total (b :: l) = (frequency b + total l)%Z.
Proof. reflexivity. Qed.

Lemma total_app (l1 l2 : list HistogramBin) :
  total (l1 ++ l2) = (total l1 + total l2)%Z.
Proof.
  unfold total, frequencies. induction l1 as [|b l1 IH]; simpl; [reflexivity|].
  rewrite IH. lia.
Qed.

(** ** Sums in int64 *)

Lemma int64_wrap_small (z : Z) :
  (- 2 ^ 63 <= z < 2 ^ 63)%Z -> int64_wrap z = z.
Proof.
  intros Hz. unfold int64_wrap. rewrite Z.mod_small; lia.
Qed.

Lemma int64_wrap_mod (z : Z) :
  (int64_wrap z mod 2 ^ 64 = z mod 2 ^ 64)%Z.
Proof.
  unfold int64_wrap. rewrite Zminus_mod_idemp_l. f_equal. lia.
Qed.

Lemma fold_int64_exact (l : list Z) (a : Z) :
  (0 <= a)%Z ->
  Forall (fun z => 0 <= z)%Z l ->
  (a + fold_right Z.add 0 l < 2 ^ 63)%Z ->
  fold_left int64_add l a = (a + fold_right Z.add 0 l)%Z.
Proof.
  intros Ha Hl. revert a Ha. induction Hl as [|z l Hz Hl IH]; intros a Ha Hsum;
    simpl in *; [lia|].
  assert (Hrest : (0 <= fold_right Z.add 0 l)%Z).
  { clear - Hl. induction Hl; simpl; lia. }
  unfold int64_add at 2. rewrite int64_wrap_small by lia.
  rewrite IH by lia. lia.
Qed.

Lemma fold_int64_mod (l : list Z) (a : Z) :
  (fold_left int64_add l a mod 2 ^ 64
   = (a + fold_right Z.add 0 l) mod 2 ^ 64)%Z.
Proof.
  revert a. induction l as [|z l IH]; intros a; simpl; [f_equal; lia|].
  rewrite IH. unfold int64_add.
  rewrite Zplus_mod, int64_wrap_mod, <- Zplus_mod. f_equal. lia.
Qed.

(** Without overflow the sum of a group is the exact sum of its rows. *)
Lemma agg_sum_exact (g : Group) :
  Forall nonneg (group_rows g) ->
  fits_int64 (group_rows g) ->
  agg_sum g = total (group_rows g).
Proof.
  unfold fits_int64, agg_sum, group_rows. rewrite total_cons.
  intros Hnn Hfit. inversion Hnn as [|? ? Hfirst Hmore]; subst.
  apply fold_int64_exact; [exact Hfirst| |exact Hfit].
  apply Forall_map. exact Hmore.
Qed.

(** In every case it is that sum modulo 2^64. *)
Lemma agg_sum_mod (g : Group) :
  (agg_sum g mod 2 ^ 64 = total (group_rows g) mod 2 ^ 64)%Z.
Proof.
  unfold agg_sum, group_rows. rewrite total_cons. apply fold_int64_mod.
Qed.

Lemma total_rows_agg (gs : list Group) :
  Forall (fun g => agg_sum g = total (group_rows g)) gs ->
  total (rows (agg gs)) = total (concat (map group_rows gs)).
Proof.
  rewrite rows_agg. induction 1 as [|g gs Hg _ IH]; [reflexivity|].
  simpl map. rewrite total_cons. simpl frequency.
  change (concat (group_rows g :: map group_rows gs))
    with (group_rows g ++ concat (map group_rows gs)).
  rewrite total_app, Hg, IH. reflexivity.
Qed.

Lemma total_rows_agg_mod (gs : list Group) :
  (total (rows (agg gs)) mod 2 ^ 64
   = total (concat (map group_rows gs)) mod 2 ^ 64)%Z.
Proof.
  rewrite rows_agg. induction gs as [|g gs IH]; [reflexivity|].
  simpl map. rewrite total_cons. simpl frequency.
  change (concat (group_rows g :: map group_rows gs))
    with (group_rows g ++ concat (map group_rows gs)).
  rewrite total_app, Zplus_mod, agg_sum_mod, IH, <- Zplus_mod. reflexivity.
Qed.

(** Non-negative rows make non-negative sums. *)
Lemma total_nonneg (l : list HistogramBin) : Forall nonneg l -> (0 <= total l)%Z.
Proof.
  induction 1 as [|b l Hb _ IH]; [rewrite total_nil; lia|].
  rewrite total_cons. unfold nonneg in Hb. lia.
Qed.

Lemma insert_row_nonneg (k : nat) (r : HistogramBin) (gs : list Group) :
  nonneg r ->
  Forall (fun g => Forall nonneg (group_rows g)) gs ->
  Forall (fun g => Forall nonneg (group_rows g)) (insert_row k r gs).
Proof.
  intros Hr.
  assert (Hone : Forall nonneg (group_rows (mkGroup k r []))).
  { unfold group_rows. simpl. constructor; [exact Hr|constructor]. }
  induction 1 as [|g gs Hg Hgs IH]; simpl.
  - constructor; [exact Hone|constructor].
  - destruct (k <? key g); [|destruct (k =? key g)].
    + constructor; [exact Hone|]. constructor; assumption.
    + constructor; [|exact Hgs]. unfold group_rows in *. simpl.
      rewrite app_comm_cons. apply Forall_app. split; [exact Hg|].
      constructor; [exact Hr|constructor].
    + constructor; assumption.
Qed.

Lemma fold_insert_nonneg (krs : list (nat * HistogramBin)) (acc : list Group) :
  Forall (fun kr => nonneg (snd kr)) krs ->
  Forall (fun g => Forall nonneg (group_rows g)) acc ->
  Forall (fun g => Forall nonneg (group_rows g))
         (fold_left (fun gs kr => insert_row (fst kr) (snd kr) gs) krs acc).
Proof.
  intros Hkrs. revert acc. induction Hkrs as [|kr krs Hkr _ IH]; intros acc Hacc;
    simpl; [exact Hacc|].
  apply IH. apply insert_row_nonneg; assumption.
Qed.

Lemma groupby_nonneg (keys : list nat) (bins : list HistogramBin) :
  Forall nonneg bins ->
  Forall (fun g => Forall nonneg (group_rows g)) (groupby keys bins).
Proof.
  intros Hb. unfold groupby. apply fold_insert_nonneg; [|constructor].
  apply Forall_forall. intros [k r] Hin. simpl.
  apply in_combine_r in Hin. rewrite Forall_forall in Hb. now apply Hb.
Qed.

(** With a step of one every run is a single row. *)
Lemma runs_of_one (bins : list HistogramBin) :
  map (run 1 bins) (seq 0 (length bins)) = map (fun b => [b]) bins.
Proof.
  induction bins as [|b bins IH]; [reflexivity|].
  simpl length. rewrite <- cons_seq, <- seq_shift, map_cons, map_map.
  simpl map at 2. rewrite <- IH. f_equal.
Qed.

Lemma agg_singletons (gs : list Group) (bins : list HistogramBin) :
  map group_rows gs = map (fun b => [b]) bins ->
  rows (agg gs) = bins.
Proof.
  rewrite rows_agg. revert bins.
  induction gs as [|g gs IH]; intros [|b bins] H; simpl in *;
    try discriminate; [reflexivity|].
  destruct g as [kg fg mg]. unfold group_rows in H at 1. simpl in H.
  injection H as Hfirst Hmore Hgs. subst fg mg.
  f_equal; [|now apply IH].
  unfold agg_min, agg_sum. simpl. now destruct b.
Qed.

Lemma step_at_saturation (n k : nat) :
  0 < k -> n <= k -> Nat.max 1 (n / k) = 1.
Proof.
  intros Hk Hn. destruct (Nat.eq_dec n k) as [->|Hne].
  - rewrite Nat.div_same by lia. reflexivity.
  - rewrite Nat.div_small by lia. reflexivity.
Qed.

Lemma ceil_div_one (n : nat) : ceil_div n 1 = n.
Proof. unfold ceil_div. rewrite Nat.div_1_r. lia. Qed.

(** ** Counting the groups and ordering their edges *)

Lemma ceil_div_covers (n step : nat) :
  0 < step -> n <= ceil_div n step * step.
Proof.
  intros Hs. pose proof (Nat.div_mod_eq n step).
  pose proof (Nat.mod_upper_bound n step ltac:(lia)).
  destruct (Nat.eq_dec (n mod step) 0).
  - rewrite ceil_div_exact by assumption. lia.
  - rewrite ceil_div_inexact by assumption. simpl. lia.
Qed.

Lemma ceil_div_least (n step m : nat) :
  0 < step -> n <= m * step -> ceil_div n step <= m.
Proof.
  intros Hs Hm. unfold ceil_div.
  apply Nat.lt_succ_r, Nat.Div0.div_lt_upper_bound. simpl. lia.
Qed.

Lemma firstn_add (A : Type) (a s : nat) (l : list A) :
  firstn (a + s) l = firstn a l ++ firstn s (skipn a l).
Proof.
  revert l. induction a as [|a IH]; intros l; [reflexivity|].
  destruct l as [|x l]; simpl.
  - now rewrite firstn_nil.
  - now rewrite IH.
Qed.

(** The runs, put end to end, give the rows back. *)
Lemma concat_runs (step : nat) (bins : list HistogramBin) (m : nat) :
  concat (map (run step bins) (seq 0 m)) = firstn (m * step) bins.
Proof.
  induction m as [|m IH]; [reflexivity|].
  rewrite seq_S, map_app, concat_app, IH. simpl.
  rewrite app_nil_r. unfold run.
  rewrite (Nat.add_comm step (m * step)). symmetry. apply firstn_add.
Qed.

Lemma concat_group_rows (step : nat) (bins : list HistogramBin) :
  0 < step ->
  concat (map group_rows (groupby (group_keys (length bins) step) bins)) = bins.
Proof.
  intros Hs. destruct (groupby_runs step bins Hs) as [_ ->].
  rewrite concat_runs. apply firstn_all2. now apply ceil_div_covers.
Qed.

Lemma total_groups_nonneg (gs : list Group) :
  Forall (fun g => Forall nonneg (group_rows g)) gs ->
  (0 <= total (concat (map group_rows gs)))%Z.
Proof.
  induction 1 as [|g gs Hg _ IH]; [simpl; rewrite total_nil; lia|].
  change (concat (map group_rows (g :: gs)))
    with (group_rows g ++ concat (map group_rows gs)).
  rewrite total_app. pose proof (total_nonneg _ Hg). lia.
Qed.

(** Groups of non-negative rows whose counts together fit int64 are summed
    without overflow. *)
Lemma groups_exact (gs : list Group) :
  Forall (fun g => Forall nonneg (group_rows g)) gs ->
  fits_int64 (concat (map group_rows gs)) ->
  Forall (fun g => agg_sum g = total (group_rows g)) gs.
Proof.
  unfold fits_int64. induction 1 as [|g gs Hg Hgs IH]; intros Hfit;
    [constructor|].
  change (concat (map group_rows (g :: gs)))
    with (group_rows g ++ concat (map group_rows gs)) in Hfit.
  rewrite total_app in Hfit.
  pose proof (total_nonneg _ Hg). pose proof (total_groups_nonneg gs Hgs).
  constructor.
  - apply agg_sum_exact; [exact Hg|]. unfold fits_int64. lia.
  - apply IH. lia.
Qed.

Lemma aggregated_exact (bins : HistogramSummary) (step : nat) :
  0 < step ->
  Forall nonneg bins ->
  fits_int64 bins ->
  Forall (fun g => agg_sum g = total (group_rows g))
         (groupby (group_keys (length bins) step) bins).
Proof.
  intros Hs Hnn Hfit. apply groups_exact; [now apply groupby_nonneg|].
  now rewrite concat_group_rows.
Qed.

(** Whatever the counts, the aggregated total is the input total modulo
    2^64. *)
Lemma aggregation_total_modulo (bins : HistogramSummary) (k : nat) :
  0 < k ->
  exists out, aggregated_bins bins k = Returned out /\
              (total (rows out) mod 2 ^ 64 = total bins mod 2 ^ 64)%Z.
Proof.
  intros Hk. eexists. split; [now apply aggregated_bins_returns|].
  rewrite total_rows_agg_mod, concat_group_rows by lia. reflexivity.
Qed.

Lemma Qmin_cases (a b : Q) : Qmin a b = a \/ Qmin a b = b.
Proof.
  unfold Qmin, GenericMinMax.gmin. destruct (a ?= b)%Q; auto.
Qed.

Lemma fold_Qmin_in (l : list Q) (a : Q) : In (fold_left Qmin l a) (a :: l).
Proof.
  revert a. induction l as [|b l IH]; intros a; simpl; [auto|].
  destruct (IH (Qmin a b)) as [H|H]; [|auto].
  rewrite <- H. destruct (Qmin_cases a b) as [-> | ->]; auto.
Qed.

(** The minimum of a group is the edge of one of its rows. *)
Lemma agg_min_in (g : Group) : In (agg_min g) (edges (group_rows g)).
Proof. unfold agg_min, edges, group_rows. simpl map. apply fold_Qmin_in. Qed.

Lemma StronglySorted_app_inv (A : Type) (R : A -> A -> Prop) (l1 l2 : list A) :
  StronglySorted R (l1 ++ l2) ->
  StronglySorted R l2 /\ (forall a b, In a l1 -> In b l2 -> R a b).
Proof.
  induction l1 as [|x l1 IH]; simpl; intros H.
  - split; [exact H|]. intros a b [].
  - inversion H as [|? ? Hs Hx]; subst.
    destruct (IH Hs) as [H2 Hlt]. split; [exact H2|].
    intros a b [<-|Ha] Hb.
    + rewrite Forall_forall in Hx. apply Hx, in_or_app. now right.
    + now apply Hlt.
Qed.

(** One edge picked in every group of an ascending frame: the picks ascend. *)
Lemma picks_ascend (gs : list Group) :
  StronglySorted Qlt (edges (concat (map group_rows gs))) ->
  StronglySorted Qlt (map agg_min gs).
Proof.
  induction gs as [|g gs IH]; intros H; [constructor|].
  change (concat (map group_rows (g :: gs)))
    with (group_rows g ++ concat (map group_rows gs)) in H.
  unfold edges in H. rewrite map_app in H. rewrite map_cons.
  apply StronglySorted_app_inv in H. destruct H as [Hrest Hlt].
  constructor; [now apply IH|].
  apply Forall_forall. intros e He.
  apply in_map_iff in He. destruct He as (g' & <- & Hg').
  apply Hlt; [apply agg_min_in|].
  apply in_map_iff. destruct (proj1 (in_map_iff _ _ _) (agg_min_in g'))
    as (b & Hb & Hin).
  exists b. split; [exact Hb|].
  apply in_concat. exists (group_rows g'). split; [|exact Hin].
  now apply in_map.
Qed.

Lemma edges_rows_agg (gs : list Group) :
  edges (rows (agg gs)) = map agg_min gs.
Proof. rewrite rows_agg. unfold edges. rewrite map_map. reflexivity. Qed.


(** * The claims about the re-binning *)

Lemma step_positive (n k : nat) : 0 < Nat.max 1 (n / k).
Proof. lia. Qed.

Lemma aggregated_length (bins : HistogramSummary) (step : nat) :
  0 < step ->
  length (agg (groupby (group_keys (length bins) step) bins))
  = ceil_div (length bins) step.
Proof.
  intros Hs. destruct (groupby_runs step bins Hs) as [Hkeys _].
  rewrite <- (length_map fst), index_agg, Hkeys. apply length_seq.
Qed.

(** C1 (conservation), as the code has it.  For every histogram summary
    with non-negative frequencies whose total count stays below 2^63, and
    every bin count the slider can give (5 to 30), the aggregation returns,
    and the frequencies of the bins it returns add up to the sum of the
    frequencies of the input bins. *)
Theorem aggregation_conserves_frequency (bins : HistogramSummary) (k : nat) :
  valid_num_bins k ->
  Forall (fun b => (0 <= frequency b)%Z) bins ->
  fits_int64 bins ->
  exists out, aggregated_bins bins k = Returned out /\
              total (rows out) = total bins.
Proof.
  intros Hk Hnn Hfit. apply valid_num_bins_positive in Hk.
  eexists. split; [now apply aggregated_bins_returns|].
  rewrite total_rows_agg
    by (apply aggregated_exact; [apply step_positive|exact Hnn|exact Hfit]).
  now rewrite concat_group_rows by apply step_positive.
Qed.

Lemma aggregation_conserves_frequency_witness :
  (valid_num_bins 5 /\
   Forall (fun b => (0 <= frequency b)%Z) example_bins /\
   fits_int64 example_bins) /\
  exists out, aggregated_bins example_bins 5 = Returned out /\
              total (rows out) = total example_bins.
Proof.
  assert (Hk : valid_num_bins 5) by (unfold valid_num_bins, slider_range; lia).
  assert (Hnn : Forall (fun b => (0 <= frequency b)%Z) example_bins).
  { repeat constructor; simpl; lia. }
  assert (Hfit : fits_int64 example_bins) by reflexivity.
  split; [exact (conj Hk (conj Hnn Hfit))|].
  exact (aggregation_conserves_frequency example_bins 5 Hk Hnn Hfit).
Defined.

(** C1, as stated, fails: on ten bins with the non-negative counts
    2^63 - 1, 1, 3, 4, 0, 0, 2, 2, 1, 1 and the slider at 5 the first
    aggregated bin holds the wrapped sum -2^63, and the aggregated
    frequencies add up to -2^63 + 13 against 2^63 + 13 for the input. *)
Lemma aggregation_overflow_loses_frequency :
  valid_num_bins 5 /\
  Forall (fun b => (0 <= frequency b < 2 ^ 63)%Z) overflow_bins /\
  exists out,
    aggregated_bins overflow_bins 5 = Returned out /\
    frequencies (rows out) = [- 2 ^ 63; 7; 0; 4; 2]%Z /\
    total (rows out) = (- 2 ^ 63 + 13)%Z /\
    total overflow_bins = (2 ^ 63 + 13)%Z /\
    total (rows out) <> total overflow_bins.
Proof.
  split; [unfold valid_num_bins, slider_range; lia|].
  split; [repeat constructor; simpl; lia|].
  eexists. split; [reflexivity|].
  split; [reflexivity|]. split; [reflexivity|]. split; [reflexivity|].
  discriminate.
Qed.

(** C2 (identity at saturation).  When the bin count asked for is at least
    the number of bins, the aggregation returns the input frame: the same
    rows (left edge and frequency) under the same index 0, 1, 2, ...  This
    holds for every positive count, in the slider's range or not. *)
Theorem aggregation_identity_at_saturation (bins : HistogramSummary) (k : nat) :
  0 < k ->
  length bins <= k ->
  exists out, aggregated_bins bins k = Returned out /\
              rows out = bins /\
              map fst out = seq 0 (length bins).
Proof.
  intros Hk Hlen. eexists. split; [now apply aggregated_bins_returns|].
  rewrite step_at_saturation by assumption.
  destruct (groupby_runs 1 bins ltac:(lia)) as [Hkeys Hrows].
  rewrite ceil_div_one in Hkeys, Hrows. split.
  - apply agg_singletons. rewrite Hrows. apply runs_of_one.
  - rewrite index_agg. exact Hkeys.
Qed.

Lemma aggregation_identity_at_saturation_witness :
  valid_num_bins 5 /\ 0 < 5 /\ length example_bins <= 5 /\
  exists out, aggregated_bins example_bins 5 = Returned out /\
              rows out = example_bins /\
              map fst out = seq 0 (length example_bins).
Proof.
  assert (Hv : valid_num_bins 5) by (unfold valid_num_bins, slider_range; lia).
  assert (Hk : 0 < 5) by lia.
  assert (Hlen : length example_bins <= 5) by (simpl; lia).
  split; [exact Hv|]. split; [exact Hk|]. split; [exact Hlen|].
  exact (aggregation_identity_at_saturation example_bins 5 Hk Hlen).
Defined.

(** C4 (group count).  The aggregation returns
    [ceil(len(bins) / max(1, len(bins) // k))] bins, that is the least number
    of runs of [step] rows that cover the frame. *)
Theorem aggregation_group_count (bins : HistogramSummary) (k : nat) :
  valid_num_bins k ->
  exists out step,
    bin_step bins k = Returned step /\
    step = Nat.max 1 (length bins / k) /\
    aggregated_bins bins k = Returned out /\
    length out = ceil_div (length bins) step /\
    length bins <= length out * step /\
    (forall m, length bins <= m * step -> length out <= m).
Proof.
  intros Hk. apply valid_num_bins_positive in Hk.
  pose proof (step_positive (length bins) k) as Hs.
  do 2 eexists. split; [now apply bin_step_returns|]. split; [reflexivity|].
  split; [now apply aggregated_bins_returns|].
  rewrite aggregated_length by exact Hs. split; [reflexivity|]. split.
  - now apply ceil_div_covers.
  - intros m Hm. now apply ceil_div_least.
Qed.

Lemma aggregation_group_count_witness :
  valid_num_bins 5 /\
  exists out step,
    bin_step example_bins 5 = Returned step /\
    step = Nat.max 1 (length example_bins / 5) /\
    aggregated_bins example_bins 5 = Returned out /\
    length out = ceil_div (length example_bins) step /\
    length example_bins <= length out * step /\
    (forall m, length example_bins <= m * step -> length out <= m).
Proof.
  assert (Hk : valid_num_bins 5) by (unfold valid_num_bins, slider_range; lia).
  split; [exact Hk|]. exact (aggregation_group_count example_bins 5 Hk).
Defined.

(** C8 (monotonic edges).  When the left edges of the input ascend strictly,
    so do the left edges of the aggregated bins. *)
Theorem aggregation_edges_ascend (bins : HistogramSummary) (k : nat) :
  valid_num_bins k ->
  strictly_ascending (edges bins) ->
  exists out, aggregated_bins bins k = Returned out /\
              strictly_ascending (edges (rows out)).
Proof.
  intros Hk Hasc. apply valid_num_bins_positive in Hk.
  eexists. split; [now apply aggregated_bins_returns|].
  unfold strictly_ascending in *. rewrite edges_rows_agg.
  apply StronglySorted_Sorted, picks_ascend.
  rewrite concat_group_rows by apply step_positive.
  apply Sorted_StronglySorted; [|exact Hasc].
  intros a b c. apply Qlt_trans.
Qed.

Lemma aggregation_edges_ascend_witness :
  valid_num_bins 5 /\ strictly_ascending (edges example_bins) /\
  exists out, aggregated_bins example_bins 5 = Returned out /\
              strictly_ascending (edges (rows out)).
Proof.
  assert (Hk : valid_num_bins 5) by (unfold valid_num_bins, slider_range; lia).
  assert (Hasc : strictly_ascending (edges example_bins)).
  { unfold strictly_ascending. simpl.
    repeat (constructor; try reflexivity). }
  split; [exact Hk|]. split; [exact Hasc|].
  exact (aggregation_edges_ascend example_bins 5 Hk Hasc).
Defined.

(** C9 (worked example).  On [(0.0,5), (0.5,10), (1.0,7), (1.5,3)] with a
    target of 2 the step is 2 and the aggregation returns
    [(0.0,15), (1.0,10)]; the total frequency is 25 before and after. *)
Theorem aggregation_worked_example :
  bin_step example_bins 2 = Returned 2 /\
  aggregated_bins example_bins 2
  = Returned [(0, mkBin 0 15); (1, mkBin 1 10)] /\
  total example_bins = 25%Z /\
  total (rows [(0, mkBin 0 15); (1, mkBin 1 10)]) = 25%Z.
Proof. repeat split; reflexivity. Qed.

(** C10 (non-negative frequencies), as the code has it.  When no input
    frequency is negative and the total count stays below 2^63, no frequency
    of the aggregated bins is negative. *)
Theorem aggregation_keeps_nonneg (bins : HistogramSummary) (k : nat) :
  valid_num_bins k ->
  Forall (fun b => (0 <= frequency b)%Z) bins ->
  fits_int64 bins ->
  exists out, aggregated_bins bins k = Returned out /\
              Forall (fun b => (0 <= frequency b)%Z) (rows out).
Proof.
  intros Hk Hb Hfit. apply valid_num_bins_positive in Hk.
  eexists. split; [now apply aggregated_bins_returns|].
  rewrite rows_agg. apply Forall_map. simpl.
  pose proof (aggregated_exact bins _ (step_positive (length bins) k) Hb Hfit)
    as Hexact.
  pose proof (groupby_nonneg
                (group_keys (length bins) (Nat.max 1 (length bins / k)))
                bins Hb) as Hnn.
  rewrite Forall_forall in *. intros g Hg.
  rewrite (Hexact g Hg). apply total_nonneg. exact (Hnn g Hg).
Qed.

Lemma aggregation_keeps_nonneg_witness :
  (valid_num_bins 5 /\
   Forall (fun b => (0 <= frequency b)%Z) example_bins /\
   fits_int64 example_bins) /\
  exists out, aggregated_bins example_bins 5 = Returned out /\
              Forall (fun b => (0 <= frequency b)%Z) (rows out).
Proof.
  assert (Hk : valid_num_bins 5) by (unfold valid_num_bins, slider_range; lia).
  assert (Hb : Forall (fun b => (0 <= frequency b)%Z) example_bins).
  { repeat constructor; simpl; lia. }
  assert (Hfit : fits_int64 example_bins) by reflexivity.
  split; [exact (conj Hk (conj Hb Hfit))|].
  exact (aggregation_keeps_nonneg example_bins 5 Hk Hb Hfit).
Defined.

(** C10, as stated, fails: on the same ten bins, all of them non-negative,
    the first aggregated bin has the frequency -2^63. *)
Lemma aggregation_overflow_goes_negative :
  valid_num_bins 5 /\
  Forall (fun b => (0 <= frequency b < 2 ^ 63)%Z) overflow_bins /\
  exists out,
    aggregated_bins overflow_bins 5 = Returned out /\
    hd_error (frequencies (rows out)) = Some (- 2 ^ 63)%Z /\
    ~ Forall (fun b => (0 <= frequency b)%Z) (rows out).
Proof.
  split; [unfold valid_num_bins, slider_range; lia|].
  split; [repeat constructor; simpl; lia|].
  eexists. split; [reflexivity|]. split; [reflexivity|].
  intros H. inversion H as [|? ? Hfirst _]. simpl in Hfirst.
  vm_compute in Hfirst. now apply Hfirst.
Qed.

(** The trailing edge is built whenever there is at least one bin. *)
Lemma histogram_section_returns (float_add : Q -> Q -> Q)
  (bins : HistogramSummary) (k : nat) :
  valid_num_bins k ->
  bins <> [] ->
  exists out extended,
    histogram_section float_add bins k = Returned (out, extended) /\
    length extended = S (length out).
Proof.
  intros Hk Hne. apply valid_num_bins_positive in Hk.
  pose proof (step_positive (length bins) k) as Hs.
  pose proof (aggregated_length bins _ Hs) as Hcount.
  pose proof (ceil_div_covers (length bins) _ Hs) as Hcover.
  unfold histogram_section. rewrite (aggregated_bins_returns bins k Hk).
  set (out := agg _) in *. simpl.
  unfold bin_edges_extended, iloc_last.
  assert (Hlen : length (rev (edges (rows out))) = length out).
  { unfold edges, rows. now rewrite length_rev, !length_map. }
  destruct (rev (edges (rows out))) as [|e es] eqn:E.
  - destruct bins; [congruence|]. simpl in *. lia.
  - simpl. do 2 eexists. split; [reflexivity|].
    unfold edges, rows. rewrite length_app, !length_map. simpl. lia.
Qed.

(** C3 (empty input).  On an empty histogram summary the aggregation itself
    returns the empty frame, but the script then reads
    [aggregated_bins['bin_edges'].iloc[-1]] without a guard, and that raises
    [IndexError]: the section does not return. *)
Theorem empty_summary_raises_index_error (float_add : Q -> Q -> Q) (k : nat) :
  valid_num_bins k ->
  aggregated_bins [] k = Returned [] /\
  bin_edges_extended float_add [] = Raised IndexError /\
  histogram_section float_add [] k = Raised IndexError.
Proof.
  intros Hk. apply valid_num_bins_positive in Hk. unfold histogram_section.
  rewrite (aggregated_bins_returns [] k Hk). simpl.
  repeat split; reflexivity.
Qed.

Lemma empty_summary_raises_index_error_witness :
  valid_num_bins 5 /\
  aggregated_bins [] 5 = Returned [] /\
  bin_edges_extended Qplus [] = Raised IndexError /\
  histogram_section Qplus [] 5 = Raised IndexError.
Proof.
  assert (Hk : valid_num_bins 5) by (unfold valid_num_bins, slider_range; lia).
  split; [exact Hk|]. exact (empty_summary_raises_index_error Qplus 5 Hk).
Defined.

(** * Properties of the correlation slice *)

Section SliceFacts.

Variable cell : Type.
Variable known_colorscale : string -> bool.

Lemma index_of_in (label : string) (labels : list string) :
  In label labels -> exists p, index_of label labels = Some p.
Proof.
  induction labels as [|l ls IH]; simpl; [intros []|]. intros Hin.
  destruct (String.eqb_spec label l) as [_|Hne]; [now exists 0|].
  destruct Hin as [Heq|Hin]; [congruence|].
  destruct (IH Hin) as [p ->]. now exists (S p).
Qed.

Lemma label_offered (label : string) (labels : list string) :
  existsb (fun b => b) (map (String.eqb label) labels) = true <-> In label labels.
Proof.
  rewrite existsb_exists. split.
  - intros (b & Hin & ->). apply in_map_iff in Hin.
    destruct Hin as (l & Heq & Hl). apply String.eqb_eq in Heq. now subst.
  - intros Hin. exists true. split; [|reflexivity].
    apply in_map_iff. exists label. split; [apply String.eqb_refl|exact Hin].
Qed.

Lemma mask_absent (A : Type) (label : string) (labels : list string)
  (row : list A) :
  ~ In label labels ->
  select_mask (map (String.eqb label) labels) row = [].
Proof.
  revert row. induction labels as [|l ls IH]; intros row Hnot; [reflexivity|].
  destruct row as [|c row]; [reflexivity|]. unfold select_mask. simpl.
  destruct (String.eqb_spec label l) as [->|_]; [exfalso; apply Hnot; now left|].
  apply IH. intros Hin. apply Hnot. now right.
Qed.

(** Under unique labels the mask of a label keeps one cell: the one at the
    position of the label. *)
Lemma mask_selects (A : Type) (label : string) (labels : list string)
  (row : list A) (p : nat) :
  NoDup labels ->
  index_of label labels = Some p ->
  length row = length labels ->
  exists c, nth_error row p = Some c /\
            select_mask (map (String.eqb label) labels) row = [c].
Proof.
  intros Hnd. revert row p.
  induction Hnd as [|l ls Hl Hnd IH]; intros row p Hp Hlen; [discriminate|].
  destruct row as [|c row]; [discriminate|]. simpl in Hp, Hlen.
  unfold select_mask. simpl.
  destruct (String.eqb_spec label l) as [->|Hne].
  - injection Hp as <-. exists c. split; [reflexivity|]. simpl. f_equal.
    now apply mask_absent.
  - destruct (index_of label ls) as [p'|] eqn:Ep; [|discriminate].
    injection Hp as <-. simpl. apply IH; [reflexivity|congruence].
Qed.

Lemma mask_column (label : string) (labels : list string) (p : nat)
  (rows : list (list cell)) :
  NoDup labels ->
  index_of label labels = Some p ->
  Forall (fun row => length row = length labels) rows ->
  exists strip,
    Forall2 (fun row c => nth_error row p = Some c) rows strip /\
    map (select_mask (map (String.eqb label) labels)) rows
    = map (fun c => [c]) strip.
Proof.
  intros Hnd Hp. induction 1 as [|row rows Hrow _ (strip & Hcol & Hmap)].
  - exists []. split; [constructor|reflexivity].
  - destruct (mask_selects _ label labels row p Hnd Hp Hrow) as (c & Hc & Hsel).
    exists (c :: strip). split; [now constructor|].
    simpl. now rewrite Hsel, Hmap.
Qed.

Lemma transpose_singletons (strip : list cell) :
  transpose_values 1 (map (fun c => [c]) strip) = [strip].
Proof.
  induction strip as [|c strip IH]; [reflexivity|].
  simpl. now rewrite IH.
Qed.

Lemma frame_height (frame : CorrelationFrame cell) :
  well_formed frame -> square frame ->
  length (index frame) = length (columns frame).
Proof.
  intros (Hidx & _) Hsq. rewrite Hidx, length_seq. exact Hsq.
Qed.

(** [df[[label]]] for a label of the frame: one column, as a frame. *)
Lemma getitem_one_column (frame : CorrelationFrame cell) (label : string) :
  well_formed frame ->
  In label (columns frame) ->
  exists strip,
    is_column_of frame label strip /\
    getitem_columns frame label
    = Returned (mkFrame (index frame) [label] (map (fun c => [c]) strip)).
Proof.
  intros (_ & Hnd & Hrows) Hin.
  destruct (index_of_in label (columns frame) Hin) as [p Hp].
  destruct (mask_column label (columns frame) p (values frame) Hnd Hp Hrows)
    as (strip & Hcol & Hmap).
  exists strip. split; [now exists p|].
  unfold getitem_columns.
  rewrite (proj2 (label_offered label (columns frame)) Hin), Hmap.
  destruct (mask_selects _ label (columns frame) (columns frame) p Hnd Hp eq_refl)
    as (l & Hl & ->).
  assert (l = label) as ->; [|reflexivity].
  clear - Hp Hl. revert p Hp Hl.
  induction (columns frame) as [|l0 ls IH]; intros p Hp Hl; [discriminate|].
  simpl in Hp. destruct (String.eqb_spec label l0) as [->|Hne].
  - injection Hp as <-. simpl in Hl. congruence.
  - destruct (index_of label ls) as [p'|] eqn:Ep; [|discriminate].
    injection Hp as <-. simpl in Hl. now apply (IH p').
Qed.

(** The figure of the feature branch. *)
Lemma feature_branch_figure (frame : CorrelationFrame cell)
  (colormap label : string) :
  well_formed frame -> square frame ->
  In label (columns frame) -> label <> full_option ->
  known_colorscale colormap = true ->
  exists strip,
    is_column_of frame label strip /\
    correlation_section known_colorscale frame colormap label
    = Returned (mkFigure [strip] (columns frame) [label]
                         "Features" label "Correlation"
                         ("Correlation Heatmap for " ++ label)
                         colormap (-1) 1 800 400).
Proof.
  intros Hwf Hsq Hin Hne Hknown.
  destruct (getitem_one_column frame label Hwf Hin) as (strip & Hcol & Hget).
  exists strip. split; [exact Hcol|].
  unfold correlation_section.
  destruct (String.eqb_spec label full_option) as [|_]; [contradiction|].
  rewrite Hget. simpl. unfold imshow, shape, transpose. simpl.
  rewrite (frame_height frame Hwf Hsq), Nat.eqb_refl, Hknown. simpl.
  now rewrite transpose_singletons.
Qed.

(** In a symmetric square matrix the column under a feature reads as the row
    of that feature. *)
Lemma column_is_row_when_symmetric (frame : CorrelationFrame cell)
  (label : string) (strip : list cell) :
  well_formed frame -> square frame -> symmetric frame ->
  is_column_of frame label strip ->
  row_of frame label = Some strip.
Proof.
  intros (_ & _ & Hrows) Hsq Hsym (p & Hp & Hcol).
  unfold row_of. rewrite Hp.
  assert (Hplt : p < length (columns frame)).
  { clear - Hp. revert p Hp.
    induction (columns frame) as [|l ls IH]; intros p Hp; [discriminate|].
    simpl in Hp. destruct (String.eqb label l); [injection Hp as <-; simpl; lia|].
    destruct (index_of label ls) as [p'|]; [|discriminate].
    injection Hp as <-. simpl. specialize (IH p' eq_refl). lia. }
  destruct (nth_error (values frame) p) as [rp|] eqn:Erp.
  2:{ apply nth_error_None in Erp. unfold square in Hsq. lia. }
  f_equal. apply nth_error_ext. intros i.
  assert (Hlen : length rp = length strip).
  { rewrite Forall_forall in Hrows. rewrite (Hrows rp (nth_error_In _ _ Erp)).
    rewrite <- (Forall2_length Hcol). symmetry. exact Hsq. }
  destruct (nth_error (values frame) i) as [ri|] eqn:Eri.
  - rewrite (Hsym p i rp ri Erp Eri).
    clear - Hcol Eri. revert i Eri.
    induction Hcol as [|row c rows strip Hc _ IH]; intros [|i] Eri;
      simpl in *; try discriminate.
    + injection Eri as <-. exact Hc.
    + now apply IH.
  - apply nth_error_None in Eri.
    rewrite (proj2 (nth_error_None rp i)), (proj2 (nth_error_None strip i));
      [reflexivity| |].
    + rewrite <- (Forall2_length Hcol). exact Eri.
    + rewrite Hlen, <- (Forall2_length Hcol). exact Eri.
Qed.

End SliceFacts.

(** * The claims about the correlation slice *)

Lemma symmetric_matrix_well_formed :
  well_formed symmetric_matrix /\ square symmetric_matrix.
Proof.
  unfold well_formed, square. simpl. repeat split.
  - repeat constructor; simpl; intuition discriminate.
  - repeat constructor.
Qed.

Lemma symmetric_matrix_symmetric : symmetric symmetric_matrix.
Proof.
  intros i j ri rj Hi Hj. simpl in Hi, Hj.
  destruct i as [|[|[|i]]]; simpl in Hi; try discriminate;
    destruct j as [|[|[|j]]]; simpl in Hj; try discriminate;
    injection Hi as <-; injection Hj as <-; reflexivity.
Qed.

Lemma asymmetric_matrix_well_formed :
  well_formed asymmetric_matrix /\ square asymmetric_matrix.
Proof.
  unfold well_formed, square. simpl. repeat split.
  - repeat constructor; simpl; intuition discriminate.
  - repeat constructor.
Qed.

(** C5, as the code has it.  For a well-formed square correlation frame and a
    feature label [X] of it (other than the text of the full-matrix option),
    drawn with a colormap that [px.imshow] knows,
    the figure has one row labelled [X], all the columns of the matrix in
    their order on the x axis, the colour range -1 to 1, and as cells the
    COLUMN of the matrix under [X] (what [matrix[[X]]] selects), laid out as
    a row; this is the matrix row of [X] when the matrix is symmetric. *)
Theorem feature_slice_shows_column (cell : Type)
  (known_colorscale : string -> bool) (frame : CorrelationFrame cell)
  (colormap X : string) :
  well_formed frame -> square frame ->
  In X (columns frame) -> X <> full_option ->
  known_colorscale colormap = true ->
  exists fig strip,
    correlation_section known_colorscale frame colormap X = Returned fig /\
    img fig = [strip] /\ y fig = [X] /\ x fig = columns frame /\
    zmin fig = (-1)%Z /\ zmax fig = 1%Z /\
    is_column_of frame X strip /\
    (symmetric frame -> row_of frame X = Some strip).
Proof.
  intros Hwf Hsq Hin Hne Hknown.
  destruct (feature_branch_figure cell known_colorscale frame colormap X
              Hwf Hsq Hin Hne Hknown) as (strip & Hcol & Hfig).
  eexists. exists strip. split; [exact Hfig|]. simpl.
  repeat (split; [reflexivity|]). split; [exact Hcol|].
  intros Hsym. now apply column_is_row_when_symmetric.
Qed.

Lemma feature_slice_shows_column_witness :
  (well_formed symmetric_matrix /\ square symmetric_matrix /\
   In "A"%string (columns symmetric_matrix) /\ "A"%string <> full_option /\
   script_colorscales "RdBu_r" = true) /\
  exists fig strip,
    correlation_section script_colorscales symmetric_matrix "RdBu_r" "A"
    = Returned fig /\
    img fig = [strip] /\ y fig = ["A"%string] /\
    x fig = columns symmetric_matrix /\
    zmin fig = (-1)%Z /\ zmax fig = 1%Z /\
    is_column_of symmetric_matrix "A" strip /\
    (symmetric symmetric_matrix -> row_of symmetric_matrix "A" = Some strip).
Proof.
  assert (Hwf : well_formed symmetric_matrix)
    by exact (proj1 symmetric_matrix_well_formed).
  assert (Hsq : square symmetric_matrix) by reflexivity.
  assert (Hin : In "A"%string (columns symmetric_matrix)) by (simpl; auto).
  assert (Hne : "A"%string <> full_option) by discriminate.
  assert (Hknown : script_colorscales "RdBu_r" = true) by reflexivity.
  split; [exact (conj Hwf (conj Hsq (conj Hin (conj Hne Hknown))))|].
  exact (feature_slice_shows_column Q script_colorscales symmetric_matrix
           "RdBu_r" "A" Hwf Hsq Hin Hne Hknown).
Defined.

(** C5, as stated, fails: on the matrix with rows (1, 0.3) and (0.7, 1) the
    slice for "A" shows the column (1, 0.7), not the row (1, 0.3). *)
Lemma feature_slice_is_not_the_row :
  well_formed asymmetric_matrix /\ square asymmetric_matrix /\
  In "A"%string (columns asymmetric_matrix) /\
  row_of asymmetric_matrix "A" = Some [1; 3#10]%Q /\
  (exists fig, correlation_section script_colorscales asymmetric_matrix "RdBu_r" "A" = Returned fig /\
               img fig = [[1; 7#10]%Q]) /\
  ~ shows_row_of script_colorscales asymmetric_matrix "RdBu_r" "A".
Proof.
  destruct asymmetric_matrix_well_formed as [Hwf Hsq].
  split; [exact Hwf|]. split; [exact Hsq|]. split; [simpl; auto|].
  split; [reflexivity|]. split.
  - eexists. split; reflexivity.
  - intros (fig & r & Hfig & _ & _ & Hrow & Himg).
    vm_compute in Hfig. injection Hfig as <-.
    vm_compute in Hrow. injection Hrow as <-.
    simpl in Himg. discriminate Himg.
Qed.

(** C7 (full matrix).  Selecting the full-matrix option on a well-formed
    square correlation frame, with a colormap that [px.imshow] knows, draws
    the cells of the matrix unchanged, with the column labels on both axes
    and the colour range fixed at -1 to 1. *)
Theorem full_selection_shows_matrix (cell : Type)
  (known_colorscale : string -> bool) (frame : CorrelationFrame cell)
  (colormap : string) :
  well_formed frame -> square frame ->
  known_colorscale colormap = true ->
  exists fig,
    correlation_section known_colorscale frame colormap
                        "Full Correlation Matrix" = Returned fig /\
    img fig = values frame /\
    x fig = columns frame /\ y fig = columns frame /\
    zmin fig = (-1)%Z /\ zmax fig = 1%Z.
Proof.
  intros Hwf Hsq Hknown. unfold correlation_section.
  change (String.eqb "Full Correlation Matrix" full_option) with true.
  cbv iota. unfold imshow, shape. simpl.
  rewrite (frame_height cell frame Hwf Hsq), Nat.eqb_refl, Hknown. simpl.
  eexists. split; [reflexivity|]. simpl. repeat split; reflexivity.
Qed.

Lemma full_selection_shows_matrix_witness :
  (well_formed asymmetric_matrix /\ square asymmetric_matrix /\
   script_colorscales "RdBu_r" = true) /\
  exists fig,
    correlation_section script_colorscales asymmetric_matrix "RdBu_r"
                        "Full Correlation Matrix"
    = Returned fig /\
    img fig = values asymmetric_matrix /\
    x fig = columns asymmetric_matrix /\ y fig = columns asymmetric_matrix /\
    zmin fig = (-1)%Z /\ zmax fig = 1%Z.
Proof.
  assert (Hwf : well_formed asymmetric_matrix)
    by exact (proj1 asymmetric_matrix_well_formed).
  assert (Hsq : square asymmetric_matrix) by reflexivity.
  assert (Hknown : script_colorscales "RdBu_r" = true) by reflexivity.
  split; [exact (conj Hwf (conj Hsq Hknown))|].
  exact (full_selection_shows_matrix Q script_colorscales asymmetric_matrix
           "RdBu_r" Hwf Hsq Hknown).
Defined.

(** C6, as the code has it.  A text that is neither the full-matrix option
    nor a column label is never handed back by the select box, which offers
    exactly those; were the column lookup given such a text, it raises
    [KeyError], an exception, and no value reaches the caller. *)
Theorem unknown_label_raises_key_error (cell : Type)
  (known_colorscale : string -> bool)
  (frame : CorrelationFrame cell) (colormap selection : string) :
  selection <> full_option ->
  ~ In selection (columns frame) ->
  ~ selectbox (all_options frame) selection /\
  correlation_section known_colorscale frame colormap selection
  = Raised (KeyError selection) /\
  as_typed_result
    (correlation_section known_colorscale frame colormap selection) = None.
Proof.
  intros Hne Hnot.
  assert (Hraise : correlation_section known_colorscale frame colormap selection
                   = Raised (KeyError selection)).
  { unfold correlation_section.
    destruct (String.eqb_spec selection full_option) as [|_]; [contradiction|].
    unfold getitem_columns.
    destruct (existsb _ _) eqn:E; [|reflexivity].
    apply label_offered in E. contradiction. }
  split; [|split; [exact Hraise|now rewrite Hraise]].
  unfold selectbox, all_options. simpl. intros [Heq|Hin]; auto.
Qed.

Lemma unknown_label_raises_key_error_witness :
  ("nonexistent"%string <> full_option /\
   ~ In "nonexistent"%string (columns asymmetric_matrix)) /\
  ~ selectbox (all_options asymmetric_matrix) "nonexistent" /\
  correlation_section script_colorscales asymmetric_matrix "RdBu_r" "nonexistent"
  = Raised (KeyError "nonexistent") /\
  as_typed_result
    (correlation_section script_colorscales asymmetric_matrix "RdBu_r"
                         "nonexistent")
  = None.
Proof.
  assert (Hne : "nonexistent"%string <> full_option) by discriminate.
  assert (Hnot : ~ In "nonexistent"%string (columns asymmetric_matrix))
    by (simpl; intuition discriminate).
  split; [split; assumption|].
  exact (unknown_label_raises_key_error Q script_colorscales asymmetric_matrix
           "RdBu_r" "nonexistent" Hne Hnot).
Defined.

(** C6, as stated, fails: for the selection "nonexistent" the call raises
    [KeyError]; it does not hand back a failure of kind [NotFound]. *)
Lemma unknown_label_is_not_a_typed_failure :
  "nonexistent"%string <> full_option /\
  ~ In "nonexistent"%string (columns asymmetric_matrix) /\
  correlation_section script_colorscales asymmetric_matrix "RdBu_r" "nonexistent"
  = Raised (KeyError "nonexistent") /\
  ~ fails_with_not_found
      (correlation_section script_colorscales asymmetric_matrix "RdBu_r"
                           "nonexistent").
Proof.
  split; [discriminate|]. split; [simpl; intuition discriminate|].
  split; [reflexivity|]. unfold fails_with_not_found. discriminate.
Qed.

(** * Further properties of the re-binning *)

Lemma agg_summarize (g : Group) :
  agg_sum g = total (group_rows g) ->
  Some (mkBin (agg_min g) (agg_sum g)) = summarize (group_rows g).
Proof.
  intros Hexact. unfold summarize, group_rows, agg_min, edges.
  now rewrite Hexact.
Qed.

Lemma frame_ext (A B : Type) (f1 f2 : list (A * B)) :
  map fst f1 = map fst f2 -> map snd f1 = map snd f2 -> f1 = f2.
Proof.
  revert f2. induction f1 as [|[a b] f1 IH]; intros [|[a' b'] f2] Hf Hs;
    simpl in *; try discriminate; [reflexivity|].
  injection Hf as -> Hf. injection Hs as -> Hs. f_equal. now apply IH.
Qed.

(** The number of groups, against the number of rows and the target. *)
Lemma group_count_bounds (n k : nat) :
  0 < k ->
  Nat.min n k <= ceil_div n (Nat.max 1 (n / k)) <= Nat.min n (2 * k - 1).
Proof.
  intros Hk. pose proof (step_positive n k) as Hs.
  pose proof (ceil_div_covers n _ Hs) as Hcover.
  pose proof (Nat.div_mod_eq n k) as Hdm.
  pose proof (Nat.mod_upper_bound n k ltac:(lia)) as Hub.
  assert (Hn : ceil_div n (Nat.max 1 (n / k)) <= n).
  { apply ceil_div_least; [exact Hs|]. nia. }
  assert (H2k : ceil_div n (Nat.max 1 (n / k)) <= 2 * k - 1).
  { apply ceil_div_least; [exact Hs|].
    destruct (Nat.max_spec 1 (n / k)) as [[Hlt ->]|[Hge ->]]; nia. }
  split; [|lia].
  destruct (Nat.max_spec 1 (n / k)) as [[Hlt Hmax]|[Hge Hmax]];
    rewrite Hmax in *; nia.
Qed.

(** With a step of one the aggregation hands the frame back. *)
Lemma aggregated_step_one (bins : HistogramSummary) (k : nat) :
  0 < k ->
  Nat.max 1 (length bins / k) = 1 ->
  exists out, aggregated_bins bins k = Returned out /\
              rows out = bins /\
              map fst out = seq 0 (length bins).
Proof.
  intros Hk Hstep. eexists. split; [now apply aggregated_bins_returns|].
  rewrite Hstep.
  destruct (groupby_runs 1 bins ltac:(lia)) as [Hkeys Hrows].
  rewrite ceil_div_one in Hkeys, Hrows. split.
  - apply agg_singletons. rewrite Hrows. apply runs_of_one.
  - rewrite index_agg. exact Hkeys.
Qed.

Lemma StronglySorted_app_l (A : Type) (R : A -> A -> Prop) (l1 l2 : list A) :
  StronglySorted R (l1 ++ l2) -> StronglySorted R l1.
Proof.
  induction l1 as [|a l1 IH]; simpl; intros H; [constructor|].
  inversion H as [|? ? Hs Ha]; subst. constructor; [now apply IH|].
  apply Forall_app in Ha. tauto.
Qed.

Lemma fold_Qmin_first (l : list Q) (a : Q) :
  Forall (Qle a) l -> fold_left Qmin l a = a.
Proof.
  induction 1 as [|b l Hb _ IH]; simpl; [reflexivity|].
  replace (Qmin a b) with a; [exact IH|].
  unfold Qmin, GenericMinMax.gmin.
  pose proof (proj1 (Qle_alt a b) Hb) as Hc.
  destruct (a ?= b)%Q; congruence.
Qed.

(** In a frame of ascending edges the minimum of a group is the edge of its
    first row. *)
Lemma agg_min_first (gs : list Group) :
  StronglySorted Qle (edges (concat (map group_rows gs))) ->
  Forall (fun g => agg_min g = bin_edges (first_row g)) gs.
Proof.
  induction gs as [|g gs IH]; intros H; [constructor|].
  change (concat (map group_rows (g :: gs)))
    with (group_rows g ++ concat (map group_rows gs)) in H.
  unfold edges in H. rewrite map_app in H. constructor.
  - apply StronglySorted_app_l in H. unfold group_rows in H. simpl in H.
    inversion H as [|? ? _ Hfirst]; subst. now apply fold_Qmin_first.
  - apply IH. now apply StronglySorted_app_inv in H.
Qed.

Lemma diff_length (float_sub : Q -> Q -> Q) (series : list Q) :
  length (diff float_sub series) = pred (length series).
Proof.
  induction series as [|a [|b rest] IH]; [reflexivity|reflexivity|].
  change (diff float_sub (a :: b :: rest))
    with (float_sub b a :: diff float_sub (b :: rest)).
  simpl length in *. now rewrite IH.
Qed.

Lemma diff_snoc (float_sub : Q -> Q -> Q) (series : list Q) (a b : Q) :
  diff float_sub ((series ++ [a]) ++ [b])
  = diff float_sub (series ++ [a]) ++ [float_sub b a].
Proof.
  induction series as [|c [|d rest] IH]; [reflexivity|reflexivity|].
  change (diff float_sub (((c :: d :: rest) ++ [a]) ++ [b]))
    with (float_sub d c :: diff float_sub (((d :: rest) ++ [a]) ++ [b])).
  rewrite IH. reflexivity.
Qed.

Lemma iloc_last_snoc (series : list Q) (a : Q) :
  iloc_last (series ++ [a]) = Returned a.
Proof. unfold iloc_last. now rewrite rev_unit. Qed.

(** X1.  For non-negative frequencies whose total stays below 2^63, the
    aggregated frame is the list of the summaries of the consecutive runs of
    [step] rows: row [g] has index [g], the least left edge of run [g] and
    the sum of its frequencies, and no run is empty. *)
Theorem aggregation_summarises_runs (bins : HistogramSummary) (k : nat) :
  valid_num_bins k ->
  Forall (fun b => (0 <= frequency b)%Z) bins ->
  fits_int64 bins ->
  exists out step,
    bin_step bins k = Returned step /\
    aggregated_bins bins k = Returned out /\
    map fst out = seq 0 (ceil_div (length bins) step) /\
    map Some (rows out)
    = map (fun g => summarize (run step bins g))
          (seq 0 (ceil_div (length bins) step)).
Proof.
  intros Hk Hnn Hfit. apply valid_num_bins_positive in Hk.
  pose proof (step_positive (length bins) k) as Hs.
  destruct (groupby_runs _ bins Hs) as [Hkeys Hrows].
  pose proof (aggregated_exact bins _ Hs Hnn Hfit) as Hexact.
  do 2 eexists. split; [now apply bin_step_returns|].
  split; [now apply aggregated_bins_returns|]. split.
  - rewrite index_agg. exact Hkeys.
  - rewrite rows_agg, map_map.
    rewrite (map_ext_in _ (fun g => summarize (group_rows g))).
    + rewrite <- (map_map group_rows summarize), Hrows, map_map. reflexivity.
    + intros g Hg. apply agg_summarize.
      rewrite Forall_forall in Hexact. now apply Hexact.
Qed.

Lemma aggregation_summarises_runs_witness :
  (valid_num_bins 5 /\
   Forall (fun b => (0 <= frequency b)%Z) example_bins /\
   fits_int64 example_bins) /\
  exists out step,
    bin_step example_bins 5 = Returned step /\
    aggregated_bins example_bins 5 = Returned out /\
    map fst out = seq 0 (ceil_div (length example_bins) step) /\
    map Some (rows out)
    = map (fun g => summarize (run step example_bins g))
          (seq 0 (ceil_div (length example_bins) step)).
Proof.
  assert (Hk : valid_num_bins 5) by (unfold valid_num_bins, slider_range; lia).
  assert (Hnn : Forall (fun b => (0 <= frequency b)%Z) example_bins).
  { repeat constructor; simpl; lia. }
  assert (Hfit : fits_int64 example_bins) by reflexivity.
  split; [exact (conj Hk (conj Hnn Hfit))|].
  exact (aggregation_summarises_runs example_bins 5 Hk Hnn Hfit).
Defined.

(** X2.  The number of bins drawn lies between min(n, k) and
    min(n, 2k - 1), for n input bins and a slider value k: at least the
    number asked for when there are that many bins, and less than twice it. *)
Theorem aggregation_bin_count_bounds (bins : HistogramSummary) (k : nat) :
  valid_num_bins k ->
  exists out,
    aggregated_bins bins k = Returned out /\
    Nat.min (length bins) k <= length out <= Nat.min (length bins) (2 * k - 1).
Proof.
  intros Hk. apply valid_num_bins_positive in Hk.
  eexists. split; [now apply aggregated_bins_returns|].
  rewrite aggregated_length by apply step_positive.
  now apply group_count_bounds.
Qed.

Lemma aggregation_bin_count_bounds_witness :
  valid_num_bins 5 /\
  exists out,
    aggregated_bins example_bins 5 = Returned out /\
    Nat.min (length example_bins) 5 <= length out
    <= Nat.min (length example_bins) (2 * 5 - 1).
Proof.
  assert (Hk : valid_num_bins 5) by (unfold valid_num_bins, slider_range; lia).
  split; [exact Hk|]. exact (aggregation_bin_count_bounds example_bins 5 Hk).
Defined.

(** X3.  Aggregating the aggregated bins again with the same slider value
    changes nothing. *)
Theorem aggregation_idempotent (bins : HistogramSummary) (k : nat) :
  valid_num_bins k ->
  exists out,
    aggregated_bins bins k = Returned out /\
    aggregated_bins (rows out) k = Returned out.
Proof.
  intros Hk. apply valid_num_bins_positive in Hk.
  pose proof (step_positive (length bins) k) as Hs.
  pose proof (aggregated_length bins _ Hs) as Hlen.
  destruct (groupby_runs _ bins Hs) as [Hkeys _].
  pose proof (group_count_bounds (length bins) k Hk) as [_ Hup].
  eexists. split; [now apply aggregated_bins_returns|].
  set (out := agg _) in *.
  assert (Hrows : length (rows out) = length out)
    by (unfold rows; apply length_map).
  destruct (aggregated_step_one (rows out) k Hk) as (out2 & Hret & Hr2 & Hi2).
  { rewrite Hrows, Hlen.
    assert (ceil_div (length bins) (Nat.max 1 (length bins / k)) / k < 2)
      by (apply Nat.Div0.div_lt_upper_bound; lia).
    lia. }
  rewrite Hret. f_equal. apply frame_ext.
  - rewrite Hi2, Hrows, Hlen. unfold out. rewrite index_agg. now symmetry.
  - exact Hr2.
Qed.

Lemma aggregation_idempotent_witness :
  valid_num_bins 5 /\
  exists out,
    aggregated_bins example_bins 5 = Returned out /\
    aggregated_bins (rows out) 5 = Returned out.
Proof.
  assert (Hk : valid_num_bins 5) by (unfold valid_num_bins, slider_range; lia).
  split; [exact Hk|]. exact (aggregation_idempotent example_bins 5 Hk).
Defined.

Lemma run_head (step : nat) (bins : list HistogramBin) (g : nat)
  (b : HistogramBin) (more : list HistogramBin) :
  run step bins g = b :: more ->
  nth_error bins (g * step) = Some b.
Proof.
  unfold run. intros H.
  assert (Hn : nth_error (firstn step (skipn (g * step) bins)) 0 = Some b)
    by now rewrite H.
  rewrite nth_error_firstn in Hn.
  destruct (0 <? step); [|discriminate].
  rewrite nth_error_skipn, Nat.add_0_r in Hn. exact Hn.
Qed.

(** X4.  When the left edges of the input do not descend, the left edge of
    every aggregated bin is the left edge of the first input bin of its run:
    output bin [g] starts where input bin [g * step] starts. *)
Theorem aggregation_edge_is_first_of_run (bins : HistogramSummary) (k : nat) :
  valid_num_bins k ->
  Sorted Qle (edges bins) ->
  exists out step,
    bin_step bins k = Returned step /\
    aggregated_bins bins k = Returned out /\
    forall g, g < length out ->
              nth_error (edges (rows out)) g = nth_error (edges bins) (g * step).
Proof.
  intros Hk Hasc. apply valid_num_bins_positive in Hk.
  pose proof (step_positive (length bins) k) as Hs.
  destruct (groupby_runs _ bins Hs) as [_ Hrows].
  do 2 eexists. split; [now apply bin_step_returns|].
  split; [now apply aggregated_bins_returns|].
  rewrite edges_rows_agg. unfold agg. rewrite length_map.
  set (gs := groupby _ bins) in *.
  assert (Hmin : Forall (fun g => agg_min g = bin_edges (first_row g)) gs).
  { apply agg_min_first. unfold gs.
    rewrite concat_group_rows by exact Hs.
    apply Sorted_StronglySorted; [|exact Hasc].
    intros a b c. apply Qle_trans. }
  intros i Hi.
  destruct (nth_error gs i) as [g|] eqn:Eg;
    [|apply nth_error_None in Eg; lia].
  rewrite (map_nth_error agg_min _ _ Eg).
  rewrite Forall_forall in Hmin. rewrite (Hmin g (nth_error_In _ _ Eg)).
  pose proof (map_nth_error group_rows _ _ Eg) as Hrun.
  rewrite Hrows in Hrun.
  rewrite nth_error_map, nth_error_seq in Hrun.
  destruct (i <? _); [|discriminate].
  cbn [option_map] in Hrun. change (0 + i) with i in Hrun.
  injection Hrun as Hrun. unfold group_rows in Hrun.
  apply run_head in Hrun. unfold edges.
  symmetry. now apply map_nth_error.
Qed.

Lemma aggregation_edge_is_first_of_run_witness :
  valid_num_bins 5 /\ Sorted Qle (edges example_bins) /\
  exists out step,
    bin_step example_bins 5 = Returned step /\
    aggregated_bins example_bins 5 = Returned out /\
    forall g, g < length out ->
              nth_error (edges (rows out)) g
              = nth_error (edges example_bins) (g * step).
Proof.
  assert (Hk : valid_num_bins 5) by (unfold valid_num_bins, slider_range; lia).
  assert (Hasc : Sorted Qle (edges example_bins)).
  { simpl. repeat (constructor; try (unfold Qle; simpl; lia)). }
  split; [exact Hk|]. split; [exact Hasc|].
  exact (aggregation_edge_is_first_of_run example_bins 5 Hk Hasc).
Defined.

(** For a frame that is not empty, what the section computes. *)
Lemma histogram_section_shape (float_add : Q -> Q -> Q)
  (bins : HistogramSummary) (k : nat) :
  valid_num_bins k ->
  bins <> [] ->
  exists out front last_edge,
    aggregated_bins bins k = Returned out /\
    edges (rows out) = front ++ [last_edge] /\
    histogram_section float_add bins k
    = Returned (out, edges (rows out) ++ [float_add last_edge float_0_1]).
Proof.
  intros Hk Hne. apply valid_num_bins_positive in Hk.
  pose proof (step_positive (length bins) k) as Hs.
  pose proof (aggregated_length bins _ Hs) as Hcount.
  pose proof (ceil_div_covers (length bins) _ Hs) as Hcover.
  unfold histogram_section. rewrite (aggregated_bins_returns bins k Hk).
  set (out := agg _) in *.
  assert (Hlen : length (edges (rows out)) = length out)
    by (unfold edges, rows; now rewrite !length_map).
  destruct (edges (rows out)) as [|e es] eqn:E.
  { destruct bins; [congruence|]. simpl in *. lia. }
  destruct (exists_last (l := e :: es) ltac:(discriminate))
    as (front & last_edge & Hsplit).
  exists out, front, last_edge. split; [reflexivity|].
  split; [congruence|].
  simpl. unfold bin_edges_extended. rewrite E, Hsplit, iloc_last_snoc.
  reflexivity.
Qed.

(** X5.  For a histogram summary that is not empty the plot is drawn: the
    bar call gets the left edges, the frequencies and as many widths as
    there are bars (at least one).  The widths are the gaps between
    neighbouring left edges, and for the last bar the float difference
    between the last edge plus 0.1 and the last edge. *)
Theorem histogram_plot_is_drawn (float_add float_sub : Q -> Q -> Q)
  (bins : HistogramSummary) (k : nat) :
  valid_num_bins k ->
  bins <> [] ->
  exists out call front last_edge,
    aggregated_bins bins k = Returned out /\
    histogram_plot float_add float_sub bins k = Returned call /\
    bar_x call = edges (rows out) /\
    bar_height call = frequencies (rows out) /\
    edges (rows out) = front ++ [last_edge] /\
    bar_width call
    = diff float_sub (edges (rows out))
      ++ [float_sub (float_add last_edge float_0_1) last_edge] /\
    length (bar_width call) = length (bar_x call) /\
    length (bar_height call) = length (bar_x call).
Proof.
  intros Hk Hne.
  destruct (histogram_section_shape float_add bins k Hk Hne)
    as (out & front & last_edge & Hout & Hsplit & Hsec).
  exists out. eexists. exists front, last_edge.
  split; [exact Hout|]. unfold histogram_plot. rewrite Hsec. simpl.
  split; [reflexivity|]. simpl.
  split; [reflexivity|]. split; [reflexivity|]. split; [exact Hsplit|].
  split; [|split].
  - rewrite Hsplit. apply diff_snoc.
  - rewrite diff_length, length_app. simpl. lia.
  - unfold frequencies, edges. now rewrite !length_map.
Qed.

Lemma histogram_plot_is_drawn_witness :
  (valid_num_bins 5 /\ example_bins <> []) /\
  exists out call front last_edge,
    aggregated_bins example_bins 5 = Returned out /\
    histogram_plot Qplus Qminus example_bins 5 = Returned call /\
    bar_x call = edges (rows out) /\
    bar_height call = frequencies (rows out) /\
    edges (rows out) = front ++ [last_edge] /\
    bar_width call
    = diff Qminus (edges (rows out))
      ++ [Qminus (Qplus last_edge float_0_1) last_edge] /\
    length (bar_width call) = length (bar_x call) /\
    length (bar_height call) = length (bar_x call).
Proof.
  assert (Hk : valid_num_bins 5) by (unfold valid_num_bins, slider_range; lia).
  assert (Hne : example_bins <> []) by discriminate.
  split; [exact (conj Hk Hne)|].
  exact (histogram_plot_is_drawn Qplus Qminus example_bins 5 Hk Hne).
Defined.

Lemma firstn_seq_le (g m start : nat) :
  firstn g (seq start m) = seq start (Nat.min g m).
Proof.
  revert m start. induction g as [|g IH]; intros [|m] start; simpl;
    try reflexivity.
  now rewrite IH.
Qed.

Lemma total_firstn_agg (gs : list Group) (g : nat) :
  Forall (fun h => agg_sum h = total (group_rows h)) gs ->
  total (firstn g (rows (agg gs)))
  = total (concat (firstn g (map group_rows gs))).
Proof.
  rewrite rows_agg. intros Hexact. revert g.
  induction Hexact as [|h gs Hh _ IH]; intros [|g]; simpl; try reflexivity.
  rewrite app_comm_cons. fold (group_rows h).
  rewrite total_cons, total_app, IH. simpl. now rewrite Hh.
Qed.

(** X13.  For non-negative frequencies whose total stays below 2^63 the
    cumulative frequencies agree at every bin boundary: the first [g]
    aggregated bins hold as many observations as the first [g * step] input
    bins, for every [g]. *)
Theorem aggregation_conserves_cumulative_frequency (bins : HistogramSummary)
  (k : nat) :
  valid_num_bins k ->
  Forall (fun b => (0 <= frequency b)%Z) bins ->
  fits_int64 bins ->
  exists out step,
    bin_step bins k = Returned step /\
    aggregated_bins bins k = Returned out /\
    forall g, total (firstn g (rows out)) = total (firstn (g * step) bins).
Proof.
  intros Hk Hnn Hfit. apply valid_num_bins_positive in Hk.
  pose proof (step_positive (length bins) k) as Hs.
  destruct (groupby_runs _ bins Hs) as [_ Hrows].
  pose proof (ceil_div_covers (length bins) _ Hs) as Hcover.
  pose proof (aggregated_exact bins _ Hs Hnn Hfit) as Hexact.
  do 2 eexists. split; [now apply bin_step_returns|].
  split; [now apply aggregated_bins_returns|].
  intros g. rewrite (total_firstn_agg _ g Hexact).
  rewrite Hrows, firstn_map, firstn_seq_le.
  rewrite concat_runs. f_equal.
  destruct (Nat.min_spec g (ceil_div (length bins)
                                     (Nat.max 1 (length bins / k))))
    as [[Hlt ->]|[Hge ->]]; [reflexivity|].
  rewrite !firstn_all2; [reflexivity| |exact Hcover].
  etransitivity; [exact Hcover|]. apply Nat.mul_le_mono_r. exact Hge.
Qed.

Lemma aggregation_conserves_cumulative_frequency_witness :
  (valid_num_bins 5 /\
   Forall (fun b => (0 <= frequency b)%Z) example_bins /\
   fits_int64 example_bins) /\
  exists out step,
    bin_step example_bins 5 = Returned step /\
    aggregated_bins example_bins 5 = Returned out /\
    forall g, total (firstn g (rows out))
              = total (firstn (g * step) example_bins).
Proof.
  assert (Hk : valid_num_bins 5) by (unfold valid_num_bins, slider_range; lia).
  assert (Hnn : Forall (fun b => (0 <= frequency b)%Z) example_bins).
  { repeat constructor; simpl; lia. }
  assert (Hfit : fits_int64 example_bins) by reflexivity.
  split; [exact (conj Hk (conj Hnn Hfit))|].
  exact (aggregation_conserves_cumulative_frequency example_bins 5 Hk Hnn Hfit).
Defined.

(** * Further properties of the correlation heat map *)

Section HeatMapFacts.

Variable cell : Type.
Variable known_colorscale : string -> bool.

(** The figure of the full-matrix branch. *)
Lemma full_branch_figure (frame : CorrelationFrame cell) (colormap : string) :
  length (index frame) = length (columns frame) ->
  known_colorscale colormap = true ->
  correlation_section known_colorscale frame colormap full_option
  = Returned (mkFigure (values frame) (columns frame) (columns frame)
                       "Features" "Features" "Correlation"
                       "Full Feature Correlation Matrix"
                       colormap (-1) 1 800 800).
Proof.
  intros Hsq Hknown. unfold correlation_section.
  rewrite String.eqb_refl. unfold imshow, shape. simpl.
  rewrite Hsq, Nat.eqb_refl, Hknown. reflexivity.
Qed.

(** With a colormap that [px.imshow] does not know nothing is drawn. *)
Lemma unknown_colorscale_raises (frame : CorrelationFrame cell)
  (colormap selection : string) :
  known_colorscale colormap = false ->
  exists e, correlation_section known_colorscale frame colormap selection
            = Raised e.
Proof.
  intros Hunknown. unfold correlation_section.
  destruct (String.eqb selection full_option).
  - unfold imshow. rewrite Hunknown.
    destruct (negb (_ =? _)); [eauto|]. destruct (negb (_ =? _)); simpl; eauto.
  - destruct (getitem_columns frame selection) as [selected|e]; simpl; [|eauto].
    unfold imshow. rewrite Hunknown.
    destruct (negb (_ =? _)); [eauto|]. destruct (negb (_ =? _)); simpl; eauto.
Qed.

Lemma unknown_label_raises (frame : CorrelationFrame cell)
  (colormap selection : string) :
  selection <> full_option ->
  ~ In selection (columns frame) ->
  correlation_section known_colorscale frame colormap selection
  = Raised (KeyError selection).
Proof.
  intros Hne Hnot. unfold correlation_section.
  destruct (String.eqb_spec selection full_option) as [|_]; [contradiction|].
  unfold getitem_columns.
  destruct (existsb _ _) eqn:E; [|reflexivity].
  apply label_offered in E. contradiction.
Qed.

Lemma column_height (frame : CorrelationFrame cell) (label : string)
  (strip : list cell) :
  is_column_of frame label strip -> length strip = length (values frame).
Proof. intros (p & _ & Hcol). symmetry. exact (Forall2_length Hcol). Qed.

End HeatMapFacts.

(** X6.  On a well-formed square correlation frame, with a colormap that
    [px.imshow] knows, every selection the select box can hand back (the
    full-matrix option or a column label) leads to a figure: neither
    [KeyError] nor [ValueError] is raised. *)
Theorem offered_selection_is_drawn (cell : Type)
  (known_colorscale : string -> bool) (frame : CorrelationFrame cell)
  (colormap selection : string) :
  well_formed frame -> square frame ->
  known_colorscale colormap = true ->
  selectbox (all_options frame) selection ->
  exists fig, correlation_section known_colorscale frame colormap selection
              = Returned fig.
Proof.
  intros Hwf Hsq Hknown Hsel.
  destruct (string_dec selection full_option) as [->|Hne].
  - eexists. apply full_branch_figure; [now apply frame_height|exact Hknown].
  - destruct Hsel as [Heq|Hin]; [congruence|].
    destruct (feature_branch_figure cell known_colorscale frame colormap
                selection Hwf Hsq Hin Hne Hknown) as (strip & _ & Hfig).
    eexists. exact Hfig.
Qed.

Lemma offered_selection_is_drawn_witness :
  (well_formed asymmetric_matrix /\ square asymmetric_matrix /\
   script_colorscales "gray" = true /\
   selectbox (all_options asymmetric_matrix) "B") /\
  exists fig, correlation_section script_colorscales asymmetric_matrix "gray" "B"
              = Returned fig.
Proof.
  assert (Hwf : well_formed asymmetric_matrix)
    by exact (proj1 asymmetric_matrix_well_formed).
  assert (Hsq : square asymmetric_matrix) by reflexivity.
  assert (Hsel : selectbox (all_options asymmetric_matrix) "B")
    by (unfold selectbox; simpl; auto).
  assert (Hknown : script_colorscales "gray" = true) by reflexivity.
  split; [exact (conj Hwf (conj Hsq (conj Hknown Hsel)))|].
  exact (offered_selection_is_drawn Q script_colorscales asymmetric_matrix
           "gray" "B" Hwf Hsq Hknown Hsel).
Defined.

(** X7.  Whatever the selection, a figure drawn from a well-formed square
    correlation frame fits its axes: the image has one row per label of the
    y axis and one cell per label of the x axis in every row; the x axis
    carries the column labels of the frame, the colour range is -1 to 1 and
    the colour scale is the chosen colormap, one that [px.imshow] knows. *)
Theorem drawn_figure_fits_axes (cell : Type)
  (known_colorscale : string -> bool) (frame : CorrelationFrame cell)
  (colormap selection : string) (fig : Figure cell) :
  well_formed frame -> square frame ->
  correlation_section known_colorscale frame colormap selection = Returned fig ->
  length (img fig) = length (y fig) /\
  Forall (fun row => length row = length (x fig)) (img fig) /\
  x fig = columns frame /\
  zmin fig = (-1)%Z /\ zmax fig = 1%Z /\
  color_continuous_scale fig = colormap /\
  known_colorscale colormap = true.
Proof.
  intros Hwf Hsq Hfig.
  destruct (known_colorscale colormap) eqn:Hknown.
  2:{ destruct (unknown_colorscale_raises cell known_colorscale frame colormap
                  selection Hknown) as [e He].
      rewrite He in Hfig. discriminate. }
  destruct (string_dec selection full_option) as [->|Hne].
  - rewrite full_branch_figure in Hfig
      by (try apply frame_height; assumption).
    injection Hfig as <-. simpl. destruct Hwf as (_ & _ & Hrows).
    repeat split; [exact Hsq|exact Hrows].
  - destruct (in_dec string_dec selection (columns frame)) as [Hin|Hnot].
    + destruct (feature_branch_figure cell known_colorscale frame colormap
                  selection Hwf Hsq Hin Hne Hknown) as (strip & Hcol & Hret).
      rewrite Hret in Hfig. injection Hfig as <-. simpl.
      repeat split. constructor; [|constructor].
      rewrite (column_height cell frame selection strip Hcol). exact Hsq.
    + rewrite unknown_label_raises in Hfig by assumption. discriminate.
Qed.

Lemma drawn_figure_fits_axes_witness :
  (well_formed asymmetric_matrix /\ square asymmetric_matrix) /\
  exists fig,
    correlation_section script_colorscales asymmetric_matrix "gray" "B"
    = Returned fig /\
    length (img fig) = length (y fig) /\
    Forall (fun row => length row = length (x fig)) (img fig) /\
    x fig = columns asymmetric_matrix /\
    zmin fig = (-1)%Z /\ zmax fig = 1%Z /\
    color_continuous_scale fig = "gray"%string /\
    script_colorscales "gray" = true.
Proof.
  assert (Hwf : well_formed asymmetric_matrix)
    by exact (proj1 asymmetric_matrix_well_formed).
  assert (Hsq : square asymmetric_matrix) by reflexivity.
  split; [exact (conj Hwf Hsq)|].
  eexists. split; [reflexivity|].
  exact (drawn_figure_fits_axes Q script_colorscales asymmetric_matrix
           "gray" "B" _ Hwf Hsq eq_refl).
Defined.

(** X8.  On a frame with a different number of rows than of columns nothing
    the select box offers can be drawn: the axis labels do not fit the image
    and [px.imshow] raises [ValueError], for the full matrix and for every
    single feature. *)
Theorem non_square_frame_raises_value_error (cell : Type)
  (known_colorscale : string -> bool)
  (frame : CorrelationFrame cell) (colormap selection : string) :
  length (index frame) <> length (columns frame) ->
  selectbox (all_options frame) selection ->
  correlation_section known_colorscale frame colormap selection
  = Raised ValueError.
Proof.
  intros Hns Hsel. apply Nat.eqb_neq in Hns.
  unfold correlation_section.
  destruct (String.eqb_spec selection full_option) as [Heq|Hne].
  - unfold imshow, shape. simpl. now rewrite Hns.
  - destruct Hsel as [Heq|Hin]; [congruence|].
    unfold getitem_columns.
    rewrite (proj2 (label_offered selection (columns frame)) Hin).
    simpl. unfold imshow, shape, transpose. simpl.
    destruct (negb _); [reflexivity|]. now rewrite Hns.
Qed.

Lemma non_square_frame_raises_value_error_witness :
  (length (index wide_matrix) <> length (columns wide_matrix) /\
   selectbox (all_options wide_matrix) "A") /\
  correlation_section script_colorscales wide_matrix "gray" "A" = Raised ValueError.
Proof.
  assert (Hns : length (index wide_matrix) <> length (columns wide_matrix))
    by (simpl; lia).
  assert (Hsel : selectbox (all_options wide_matrix) "A")
    by (unfold selectbox; simpl; auto).
  split; [exact (conj Hns Hsel)|].
  exact (non_square_frame_raises_value_error Q script_colorscales wide_matrix
           "gray" "A" Hns Hsel).
Defined.

(** * Properties of the filters and of the bar chart *)

Section SeriesFacts.

Variable A : Type.
Variable eqb : A -> A -> bool.
Hypothesis eqb_eq : forall a b, eqb a b = true <-> a = b.

Lemma isin_In (values : list A) (v : A) :
  isin eqb values v = true <-> In v values.
Proof.
  unfold isin. rewrite existsb_exists. split.
  - intros (w & Hw & Heq). apply eqb_eq in Heq. now subst.
  - intros Hin. exists v. split; [exact Hin|]. now apply eqb_eq.
Qed.

Lemma unique_from_In (seen series : list A) (v : A) :
  In v (unique_from eqb seen series) <-> In v series /\ ~ In v seen.
Proof.
  revert seen. induction series as [|w rest IH]; intros seen; simpl.
  - tauto.
  - destruct (isin eqb seen w) eqn:E.
    + apply isin_In in E. rewrite IH. split.
      * intros [Hin Hnot]. auto.
      * intros [[->|Hin] Hnot]; [contradiction|auto].
    + assert (Hw : ~ In w seen).
      { intros Hin. apply isin_In in Hin. congruence. }
      simpl. rewrite IH. simpl. split.
      * intros [->|[Hin Hnot]]; [auto|]. split; [auto|]. intros H. apply Hnot. auto.
      * intros [[->|Hin] Hnot]; [auto|].
        destruct (eqb w v) eqn:Ewv.
        -- apply eqb_eq in Ewv. auto.
        -- right. split; [exact Hin|]. intros [->|H]; [|contradiction].
           assert (eqb v v = true) by now apply eqb_eq. congruence.
Qed.

Lemma unique_from_NoDup (seen series : list A) :
  NoDup (unique_from eqb seen series).
Proof.
  revert seen. induction series as [|w rest IH]; intros seen; simpl.
  - constructor.
  - destruct (isin eqb seen w); [apply IH|].
    constructor; [|apply IH].
    rewrite unique_from_In. simpl. tauto.
Qed.

Lemma unique_In (series : list A) (v : A) :
  In v (unique eqb series) <-> In v series.
Proof. unfold unique. rewrite unique_from_In. simpl. tauto. Qed.

End SeriesFacts.

Lemma filter_keeps_all (A : Type) (f : A -> bool) (l : list A) :
  (forall a, In a l -> f a = true) -> filter f l = l.
Proof.
  intros H. apply forallb_filter_id, forallb_forall. exact H.
Qed.

Lemma string_eqb_eq (a b : string) : String.eqb a b = true <-> a = b.
Proof. apply String.eqb_eq. Qed.

Lemma filtered_df_In (df : FlightFrame) (year_filter : list Z)
  (aircraft_filter : list string) (row : FlightRow) :
  In row (filtered_df df year_filter aircraft_filter) <->
  In row df /\ In (YEAR row) year_filter /\
  In (AIRCRAFT_CONFIG_DESC row) aircraft_filter.
Proof.
  unfold filtered_df. rewrite filter_In, andb_true_iff.
  rewrite (isin_In _ Z.eqb Z.eqb_eq), (isin_In _ String.eqb string_eqb_eq).
  tauto.
Qed.

(** X9.  Each multiselect offers every value of its column exactly once,
    and with the defaults (everything selected) the filter keeps the whole
    table, rows and order. *)
Theorem default_filters_keep_every_row (df : FlightFrame) :
  NoDup (year_options df) /\
  NoDup (aircraft_options df) /\
  (forall row, In row df ->
               In (YEAR row) (year_options df) /\
               In (AIRCRAFT_CONFIG_DESC row) (aircraft_options df)) /\
  (forall year, In year (year_options df) ->
                exists row, In row df /\ YEAR row = year) /\
  (forall c, In c (aircraft_options df) ->
             exists row, In row df /\ AIRCRAFT_CONFIG_DESC row = c) /\
  filtered_df df (year_options df) (aircraft_options df) = df.
Proof.
  unfold year_options, aircraft_options.
  assert (Hrow : forall row, In row df ->
            In (YEAR row) (unique Z.eqb (map YEAR df)) /\
            In (AIRCRAFT_CONFIG_DESC row)
               (unique String.eqb (map AIRCRAFT_CONFIG_DESC df))).
  { intros row Hin. split.
    - apply (unique_In _ Z.eqb Z.eqb_eq). now apply in_map.
    - apply (unique_In _ String.eqb string_eqb_eq). now apply in_map. }
  split; [apply (unique_from_NoDup _ Z.eqb Z.eqb_eq)|].
  split; [apply (unique_from_NoDup _ String.eqb string_eqb_eq)|].
  split; [exact Hrow|]. split; [|split].
  - intros year Hin. apply (proj1 (unique_In _ Z.eqb Z.eqb_eq _ _)) in Hin.
    apply in_map_iff in Hin. destruct Hin as (row & Heq & Hin). eauto.
  - intros c Hin. apply (proj1 (unique_In _ String.eqb string_eqb_eq _ _)) in Hin.
    apply in_map_iff in Hin. destruct Hin as (row & Heq & Hin). eauto.
  - unfold filtered_df. apply filter_keeps_all. intros row Hin.
    destruct (Hrow row Hin) as [Hy Hc]. apply andb_true_iff. split.
    + now apply (isin_In _ Z.eqb Z.eqb_eq).
    + now apply (isin_In _ String.eqb string_eqb_eq).
Qed.

(** ** The order of configuration names *)

Lemma string_ltb_irrefl (a : string) : String.ltb a a = false.
Proof.
  unfold String.ltb. pose proof (String.compare_antisym a a) as H.
  destruct (String.compare a a); simpl in H; congruence.
Qed.

Lemma string_lt_trans (a b c : string) :
  string_lt a b -> string_lt b c -> string_lt a c.
Proof.
  unfold string_lt, String.ltb. intros Hab Hbc.
  destruct (String.compare a b) eqn:Eab; try discriminate.
  destruct (String.compare b c) eqn:Ebc; try discriminate.
  apply OrderedTypeEx.String_as_OT.cmp_lt in Eab, Ebc.
  pose proof (OrderedTypeEx.String_as_OT.lt_trans _ _ _ Eab Ebc) as Hac.
  apply OrderedTypeEx.String_as_OT.cmp_lt in Hac.
  unfold OrderedTypeEx.String_as_OT.cmp in Hac. now rewrite Hac.
Qed.

Lemma string_lt_neq (a b : string) : string_lt a b -> a <> b.
Proof.
  unfold string_lt. intros H ->. rewrite string_ltb_irrefl in H. discriminate.
Qed.

Lemma string_trichotomy (a b : string) :
  String.ltb a b = false -> String.eqb a b = false -> string_lt b a.
Proof.
  unfold string_lt, String.ltb. intros Hlt Hne.
  rewrite (String.compare_antisym b a).
  destruct (String.compare a b) eqn:E; simpl; try discriminate; [|reflexivity].
  apply String.compare_eq_iff in E. subst. rewrite String.eqb_refl in Hne.
  discriminate.
Qed.

Lemma sorted_names_NoDup (names : list string) :
  Sorted string_lt names -> NoDup names.
Proof.
  intros H. apply Sorted_StronglySorted in H;
    [|intros a b c; apply string_lt_trans].
  induction H as [|a l _ IH Ha]; constructor; [|exact IH].
  intros Hin. rewrite Forall_forall in Ha.
  exact (string_lt_neq a a (Ha a Hin) eq_refl).
Qed.

(** ** How the rows are filed by configuration *)

Lemma insert_time_head (a c : string) (t : Q) (gs : list ConfigGroup) :
  HdRel string_lt a (map config gs) ->
  string_lt a c ->
  HdRel string_lt a (map config (insert_time c t gs)).
Proof.
  intros Hhd Hac. destruct gs as [|g gs]; simpl; [now constructor|].
  destruct (String.ltb c (config g)); [now constructor|].
  simpl in Hhd. inversion Hhd; subst.
  destruct (String.eqb c (config g)); simpl; now constructor.
Qed.

Lemma insert_time_sorted (c : string) (t : Q) (gs : list ConfigGroup) :
  Sorted string_lt (map config gs) ->
  Sorted string_lt (map config (insert_time c t gs)).
Proof.
  induction gs as [|g gs IH]; simpl; intros Hs; [repeat constructor|].
  inversion Hs as [|? ? Htail Hhd]; subst.
  destruct (String.ltb c (config g)) eqn:Elt;
    [|destruct (String.eqb c (config g)) eqn:Eeq]; simpl.
  - constructor; [exact Hs|]. constructor. exact Elt.
  - exact Hs.
  - constructor; [now apply IH|].
    apply insert_time_head; [exact Hhd|]. now apply string_trichotomy.
Qed.

Lemma insert_time_names (c c' : string) (t : Q) (gs : list ConfigGroup) :
  In c' (map config (insert_time c t gs)) <-> c' = c \/ In c' (map config gs).
Proof.
  induction gs as [|g gs IH]; simpl; [intuition|].
  destruct (String.ltb c (config g));
    [|destruct (String.eqb_spec c (config g)) as [Heq|Hne]]; simpl.
  - intuition.
  - subst c. intuition.
  - rewrite IH. intuition.
Qed.

Lemma times_of_snoc (c : string) (frame : FlightFrame) (row : FlightRow) :
  times_of c (frame ++ [row])
  = times_of c frame
    ++ (if String.eqb c (AIRCRAFT_CONFIG_DESC row)
        then [average_ground_time row] else []).
Proof.
  unfold times_of. rewrite filter_app, map_app. simpl.
  destruct (String.eqb c (AIRCRAFT_CONFIG_DESC row)); reflexivity.
Qed.

Lemma times_of_other (c : string) (frame : FlightFrame) (row : FlightRow) :
  c <> AIRCRAFT_CONFIG_DESC row ->
  times_of c (frame ++ [row]) = times_of c frame.
Proof.
  intros Hne. rewrite times_of_snoc.
  destruct (String.eqb_spec c (AIRCRAFT_CONFIG_DESC row));
    [contradiction|apply app_nil_r].
Qed.

Lemma times_of_nonempty (c : string) (frame : FlightFrame) (row : FlightRow) :
  In row frame -> AIRCRAFT_CONFIG_DESC row = c -> times_of c frame <> [].
Proof.
  intros Hin Hc Hnil. unfold times_of in Hnil. apply map_eq_nil in Hnil.
  assert (Hf : In row (filter (fun r => String.eqb c (AIRCRAFT_CONFIG_DESC r))
                              frame)).
  { apply filter_In. split; [exact Hin|]. subst c. apply String.eqb_refl. }
  rewrite Hnil in Hf. exact Hf.
Qed.

(** Filing one more row keeps every group equal to the ground times of its
    configuration. *)
Lemma insert_time_times (frame : FlightFrame) (row : FlightRow)
  (gs : list ConfigGroup) :
  StronglySorted string_lt (map config gs) ->
  Forall (fun g => group_times g = times_of (config g) frame) gs ->
  times_of (AIRCRAFT_CONFIG_DESC row) frame = []
  \/ In (AIRCRAFT_CONFIG_DESC row) (map config gs) ->
  Forall (fun g => group_times g = times_of (config g) (frame ++ [row]))
         (insert_time (AIRCRAFT_CONFIG_DESC row) (average_ground_time row) gs).
Proof.
  set (c := AIRCRAFT_CONFIG_DESC row). set (t := average_ground_time row).
  assert (Hkeep : forall gs',
             Forall (fun g => group_times g = times_of (config g) frame) gs' ->
             Forall (fun k => k <> c) (map config gs') ->
             Forall (fun g => group_times g = times_of (config g) (frame ++ [row]))
                    gs').
  { intros gs' Hf Hne. rewrite Forall_forall in *. intros g Hg.
    rewrite times_of_other; [now apply Hf|]. apply Hne. now apply in_map. }
  assert (Hnew : times_of c frame = [] ->
                 group_times (mkConfigGroup c t [])
                 = times_of c (frame ++ [row])).
  { intros Hnil. rewrite times_of_snoc, Hnil. fold c.
    rewrite String.eqb_refl. reflexivity. }
  induction gs as [|g gs IH]; simpl; intros Hs Hf Hc.
  - constructor; [|constructor]. apply Hnew. destruct Hc as [H|[]]. exact H.
  - inversion Hs as [|? ? Htail Hhd]; subst.
    inversion Hf as [|? ? Hg Hrest]; subst.
    destruct (String.ltb c (config g)) eqn:Elt;
      [|destruct (String.eqb_spec c (config g)) as [Heq|Hne]].
    + assert (Hall : Forall (fun k => k <> c) (map config (g :: gs))).
      { simpl. constructor.
        - intros Heq. rewrite Heq, string_ltb_irrefl in Elt. discriminate.
        - eapply Forall_impl; [|exact Hhd]. intros k Hk Heq. subst k.
          pose proof (string_lt_trans _ _ _ Elt Hk) as Hcc.
          exact (string_lt_neq c c Hcc eq_refl). }
      constructor; [|now apply Hkeep].
      apply Hnew. destruct Hc as [H|Hin]; [exact H|].
      rewrite Forall_forall in Hall. exfalso. exact (Hall c Hin eq_refl).
    + constructor.
      * unfold group_times in *. simpl.
        rewrite times_of_snoc, <- Hg. fold c. rewrite Heq, String.eqb_refl.
        reflexivity.
      * apply Hkeep; [exact Hrest|].
        eapply Forall_impl; [|exact Hhd]. intros k Hk Hkc. subst k.
        rewrite Heq in Hk. exact (string_lt_neq _ _ Hk eq_refl).
    + constructor.
      * rewrite times_of_other; [exact Hg|]. fold c. congruence.
      * apply IH; [exact Htail|exact Hrest|].
        destruct Hc as [H|[H|H]]; [now left|congruence|now right].
Qed.

Lemma groupby_config_snoc (frame : FlightFrame) (row : FlightRow) :
  groupby_config (frame ++ [row])
  = insert_time (AIRCRAFT_CONFIG_DESC row) (average_ground_time row)
                (groupby_config frame).
Proof. unfold groupby_config. now rewrite fold_left_app. Qed.

(** What [groupby('AIRCRAFT_CONFIG_DESC')] yields: the configurations of
    the frame, ascending, each with the ground times of its rows. *)
Lemma groupby_config_spec (frame : FlightFrame) :
  Sorted string_lt (map config (groupby_config frame)) /\
  (forall c, In c (map config (groupby_config frame)) <->
             exists row, In row frame /\ AIRCRAFT_CONFIG_DESC row = c) /\
  Forall (fun g => group_times g = times_of (config g) frame)
         (groupby_config frame).
Proof.
  induction frame as [|row frame (Hs & Hn & Hf)] using rev_ind.
  - split; [constructor|]. split; [|constructor].
    intros c. simpl. split; [intros []|intros (row & [] & _)].
  - rewrite groupby_config_snoc. split; [now apply insert_time_sorted|].
    split.
    + intros c. rewrite insert_time_names, Hn. split.
      * intros [->|(r & Hin & Hc)].
        -- exists row. split; [apply in_or_app; right; now left|reflexivity].
        -- exists r. split; [apply in_or_app; now left|exact Hc].
      * intros (r & Hin & Hc). apply in_app_or in Hin.
        destruct Hin as [Hin|[->|[]]]; [right; eauto|now left].
    + apply insert_time_times.
      * apply Sorted_StronglySorted; [|exact Hs].
        intros a b c. apply string_lt_trans.
      * exact Hf.
      * destruct (times_of (AIRCRAFT_CONFIG_DESC row) frame) as [|t ts] eqn:E;
          [now left|right].
        apply Hn. unfold times_of in E.
        destruct (filter _ frame) as [|r rs] eqn:Ef; [discriminate|].
        assert (Hr : In r (filter (fun r0 => String.eqb (AIRCRAFT_CONFIG_DESC row)
                                              (AIRCRAFT_CONFIG_DESC r0)) frame))
          by (rewrite Ef; now left).
        apply filter_In in Hr. destruct Hr as [Hin Heq].
        apply String.eqb_eq in Heq. eauto.
Qed.

Lemma bar_chart_names (float_mean : list Q -> Q) (frame : FlightFrame) :
  map fst (bar_chart_data float_mean frame) = map config (groupby_config frame).
Proof. unfold bar_chart_data. rewrite map_map. reflexivity. Qed.

Lemma bar_chart_has_names_once (float_mean : list Q -> Q) (frame : FlightFrame) :
  NoDup (map fst (bar_chart_data float_mean frame)).
Proof.
  rewrite bar_chart_names. apply sorted_names_NoDup.
  now destruct (groupby_config_spec frame).
Qed.

(** X10.  The bar chart has one bar for each aircraft configuration that
    occurs in the frame it is given, and no other; the bars come in
    ascending order of the configuration name, none twice. *)
Theorem bar_chart_has_one_bar_per_configuration (float_mean : list Q -> Q)
  (frame : FlightFrame) :
  Sorted string_lt (map fst (bar_chart_data float_mean frame)) /\
  NoDup (map fst (bar_chart_data float_mean frame)) /\
  forall c, In c (map fst (bar_chart_data float_mean frame)) <->
            exists row, In row frame /\ AIRCRAFT_CONFIG_DESC row = c.
Proof.
  rewrite bar_chart_names.
  destruct (groupby_config_spec frame) as (Hs & Hn & _).
  split; [exact Hs|]. split; [now apply sorted_names_NoDup|exact Hn].
Qed.

(** X11.  The height of each bar is the float mean of the
    [average_ground_time] cells of the rows of its configuration, taken in
    the order of the frame (a mean of the per-row averages); that list is
    never empty. *)
Theorem bar_height_is_mean_of_configuration (float_mean : list Q -> Q)
  (frame : FlightFrame) :
  Forall (fun bar => times_of (fst bar) frame <> [] /\
                     snd bar = float_mean (times_of (fst bar) frame))
         (bar_chart_data float_mean frame).
Proof.
  destruct (groupby_config_spec frame) as (_ & _ & Hf).
  unfold bar_chart_data. apply Forall_map. simpl.
  eapply Forall_impl; [|exact Hf]. intros g Hg. simpl.
  rewrite <- Hg. split; [discriminate|reflexivity].
Qed.

(** X12.  With the two filters, a configuration has a bar exactly when it
    is selected and some row of a selected year has it.  So there are at
    most as many bars as selected configurations, and none at all when no
    year or no configuration is selected. *)
Theorem bar_chart_respects_filters (float_mean : list Q -> Q)
  (df : FlightFrame) (year_filter : list Z) (aircraft_filter : list string) :
  (forall c,
      In c (map fst (bar_chart float_mean df year_filter aircraft_filter)) <->
      In c aircraft_filter /\
      exists row, In row df /\ AIRCRAFT_CONFIG_DESC row = c /\
                  In (YEAR row) year_filter) /\
  length (bar_chart float_mean df year_filter aircraft_filter)
  <= length aircraft_filter /\
  bar_chart float_mean df [] aircraft_filter = [] /\
  bar_chart float_mean df year_filter [] = [].
Proof.
  assert (Hiff : forall yf af c,
             In c (map fst (bar_chart float_mean df yf af)) <->
             In c af /\
             exists row, In row df /\ AIRCRAFT_CONFIG_DESC row = c /\
                         In (YEAR row) yf).
  { intros yf af c. unfold bar_chart. rewrite bar_chart_names.
    destruct (groupby_config_spec (filtered_df df yf af)) as (_ & Hn & _).
    rewrite Hn. split.
    - intros (row & Hin & Hc). apply filtered_df_In in Hin.
      destruct Hin as (Hin & Hy & Ha). subst c. eauto.
    - intros (Ha & row & Hin & Hc & Hy). exists row. split; [|exact Hc].
      apply filtered_df_In. subst c. auto. }
  assert (Hnone : forall yf af,
             (forall c, ~ In c (map fst (bar_chart float_mean df yf af))) ->
             bar_chart float_mean df yf af = []).
  { intros yf af H. destruct (bar_chart float_mean df yf af) as [|[c v] l];
      [reflexivity|]. exfalso. apply (H c). now left. }
  split; [apply Hiff|]. split; [|split].
  - rewrite <- (length_map fst). apply NoDup_incl_length.
    + unfold bar_chart.
      apply (bar_chart_has_names_once float_mean).
    + intros c Hc. now apply Hiff in Hc.
  - apply Hnone. intros c Hc. apply Hiff in Hc.
    destruct Hc as (_ & row & _ & _ & []).
  - apply Hnone. intros c Hc. apply Hiff in Hc. destruct Hc as ([] & _).
Qed.
